(** * ZingTouch gesture engine: a shallow embedding and its properties

    The development follows the two code bases of the repository:
    - [src/core/State.js] (with [Input.js]) and [src/core/classes/Point2D.js],
      the refactored sources;
    - [bundle.js], the bundled build (webpack modules 5 to 17): [util],
      [arbiter], [dispatcher], [State], the five gestures, [Input] and
      [ZingEvent].

    JavaScript numbers are embedded as real numbers: [+], [-], [*], [/] and
    the comparisons are the exact ones, [Math.sqrt], [Math.abs], [Math.atan2],
    [Math.round] and [%] are their mathematical definitions.  This is exact
    arithmetic: no rounding of results, a single zero (no [-0]), no [NaN]
    and no infinities.  A property that holds of the doubles of the code
    only up to this idealisation says so in its statement.  Array indices,
    lengths and contact identifiers are natural numbers. *)

From Stdlib Require Import Floats.PrimFloat.
From Stdlib Require Import Reals Lra Lia ZArith.
From stdpp Require Import base option list gmap strings.

Open Scope R_scope.

(** ** JavaScript values used by the sources *)

Module JS.

Definition number := R.

#[global] Instance Rlt_decision (x y : R) : Decision (x < y)%R := Rlt_dec x y.
#[global] Instance Rle_decision (x y : R) : Decision (x <= y)%R := Rle_dec x y.
#[global] Instance Req_decision : EqDecision R := Req_dec_T.

(** [x < y], [x <= y], [x >= y], [x > y] and [x === y] on numbers. *)
Definition lt (x y : number) : bool := bool_decide (x < y)%R.
Definition le (x y : number) : bool := bool_decide (x <= y)%R.
Definition ge (x y : number) : bool := bool_decide (y <= x)%R.
Definition gt (x y : number) : bool := bool_decide (y < x)%R.
Definition eqb (x y : number) : bool := bool_decide (x = y).

(** Truthiness of a number: [0] is falsy. *)
Definition truthy (x : number) : bool := negb (eqb x 0).

(** [Math.round]: the nearest integer, halves rounded up. *)
Definition round (x : number) : number := IZR (Zfloor (x + / 2)).

(** Truncation toward zero, and the remainder operator [a % b], which
    takes the sign of the dividend. *)
Definition trunc (x : number) : Z :=
  if lt x 0 then (- Zfloor (- x))%Z else Zfloor x.
Definition rem (a b : number) : number := (a - b * IZR (trunc (a / b)))%R.

(** [Math.atan2 (y, x)], in radians on (-PI, PI].  With the single zero
    of the reals the negative x axis is mapped to [PI]; on doubles
    [Math.atan2 (-0, x)] is [-Math.PI] for a negative [x]. *)
Definition atan2 (y x : number) : number :=
  if lt 0 x then atan (y / x)
  else if lt x 0 then
    (if le 0 y then atan (y / x) + PI else atan (y / x) - PI)%R
  else if lt 0 y then (PI / 2)%R
  else if lt y 0 then (- PI / 2)%R
  else 0%R.

(** [Math.hypot] on two arguments. *)
Definition hypot (a b : number) : number := sqrt (a * a + b * b).

(** [Number.MAX_VALUE] and [Number.MIN_VALUE] (the smallest positive
    double). *)
Definition MAX_VALUE : number := ((2 - / 2 ^ 52) * 2 ^ 1023)%R.
Definition MIN_VALUE : number := (/ 2 ^ 1074)%R.

(** [a[i] = v] on an array with holes: the array is extended with holes
    when [i] is past its end. *)
Definition array_set {A} (a : list (option A)) (i : nat) (v : A)
  : list (option A) :=
  if bool_decide (i < length a)%nat then <[i := Some v]> a
  else a ++ replicate (i - length a)%nat None ++ [Some v].

(** [a[i]], where [None] is [undefined]: a hole, or past the end. *)
Definition array_get {A} (a : list (option A)) (i : nat) : option A :=
  match a !! i with Some (Some v) => Some v | _ => None end.

(** Outcome of a call that may throw a [TypeError] (a property read on
    [undefined] or [null]). *)
Inductive outcome (A : Type) : Type :=
| Ok (a : A)
| TypeError.
Arguments Ok {A} a.
Arguments TypeError {A}.

(** The names of the properties an object literal [{}] inherits from
    [Object.prototype].  Each of them holds a function, and [__proto__]
    the prototype object itself: a truthy value that has none of the
    properties the sources store. *)
Definition Object_prototype : list string :=
  ["constructor"; "__defineGetter__"; "__defineSetter__"; "hasOwnProperty";
   "__lookupGetter__"; "__lookupSetter__"; "isPrototypeOf";
   "propertyIsEnumerable"; "toString"; "valueOf"; "__proto__";
   "toLocaleString"].

End JS.

Import JS.

(** A DOM element: its identity (compared with [===]) and the rectangle
    [getBoundingClientRect] returns for it. *)
Record Rect : Type := { left : number; top : number; width : number; height : number }.
Record Element : Type := { node : nat; rect : Rect }.

(** ** [src/core/classes/Point2D.js]

    The coordinates are reals: sums, differences and halves are exact,
    where the doubles of the code round them. *)

Module Point2D.

Record t : Type := new { x : number; y : number }.

Definition add (this point : t) : t :=
  new (x this + x point) (y this + y point).

Definition angleTo (this point : t) : number :=
  atan2 (y point - y this) (x point - x this).

Definition clone (this : t) : t := new (x this) (y this).

Definition distanceTo (this point : t) : number :=
  hypot (x point - x this) (y point - y this).

Definition isInside (this : t) (element : Element) : bool :=
  let rect := rect element in
  ge (x this) (left rect) && le (x this) (left rect + width rect) &&
  ge (y this) (top rect) && le (y this) (top rect + height rect).

Definition midpointTo (this point : t) : t :=
  new ((x this + x point) / 2) ((y this + y point) / 2).

Definition subtract (this point : t) : t :=
  new (x this - x point) (y this - y point).

End Point2D.

(** [Point2D] objects in a store.  A method call reads its receiver and its
    argument through their references and [new Point2D] allocates a fresh
    object; the receiver and the argument may be the same object. *)

Module Point2DObj.

Definition ref := positive.
Abbreviation store := (gmap positive Point2D.t).

Definition alloc (v : Point2D.t) (h : store) : ref * store :=
  let r := fresh (dom h) in (r, <[r := v]> h).

Definition add (this point : ref) (h : store) : option (ref * store) :=
  p ← h !! this; q ← h !! point; Some (alloc (Point2D.add p q) h).

Definition subtract (this point : ref) (h : store) : option (ref * store) :=
  p ← h !! this; q ← h !! point; Some (alloc (Point2D.subtract p q) h).

End Point2DObj.

(** ** [bundle.js], module 5: [util] *)

(** The phase a native event type is normalised to. *)
Inductive phase : Type := PStart | PMove | PEnd.

#[global] Instance phase_eq_dec : EqDecision phase.
Proof. solve_decision. Defined.

Module util.

Definition CIRCLE_DEGREES : number := 360.
Definition HALF_CIRCLE_DEGREES : number := 180.

Definition normalizeEvent (type : string) : option phase :=
  if bool_decide (type = "mousedown") then Some PStart
  else if bool_decide (type = "touchstart") then Some PStart
  else if bool_decide (type = "pointerdown") then Some PStart
  else if bool_decide (type = "mousemove") then Some PMove
  else if bool_decide (type = "touchmove") then Some PMove
  else if bool_decide (type = "pointermove") then Some PMove
  else if bool_decide (type = "mouseup") then Some PEnd
  else if bool_decide (type = "touchend") then Some PEnd
  else if bool_decide (type = "pointerup") then Some PEnd
  else None.

(** [isWithin (cx, cy, px, py, tolerance)] *)
Definition isWithin (e t n r i : number) : bool :=
  le (Rabs (t - r)) i && le (Rabs (e - n)) i.

(** [distanceBetweenTwoPoints (x0, x1, y0, y1)] *)
Definition distanceBetweenTwoPoints (e t n r : number) : number :=
  let i := sqrt ((t - e) * (t - e) + (r - n) * (r - n)) in
  round (100 * i) / 100.

(** [getMidpoint (x0, x1, y0, y1)] *)
Definition getMidpoint (e t n r : number) : number * number :=
  ((e + t) / 2, (n + r) / 2).

(** [getAngle (originX, originY, projectionX, projectionY)], over exact
    arithmetic: the sum [CIRCLE_DEGREES + o] is not rounded. *)
Definition getAngle (e t i u : number) : number :=
  let o := atan2 (u - t) (i - e) * (HALF_CIRCLE_DEGREES / PI) in
  CIRCLE_DEGREES - (if lt o 0 then CIRCLE_DEGREES + o else o).

(** The second line of [getAngle] on the doubles of the code (binary64,
    rounding to nearest), for the degrees [o] its first line computed. *)
Definition getAngle_binary64 (o : float) : float :=
  (360 - (if (o <? 0) then 360 + o else o))%float.

(** [getAngularDistance (start, end)] *)
Definition getAngularDistance (e t : number) : number :=
  let i := rem (t - e) CIRCLE_DEGREES in
  let u := if lt i 0 then 1 else -1 in
  let i := Rabs i in
  if gt i HALF_CIRCLE_DEGREES then u * (CIRCLE_DEGREES - i) else u * i.

(** [getVelocity (startX, startY, startTime, endX, endY, endTime)] *)
Definition getVelocity (e t n r i u : number) : number :=
  let o := distanceBetweenTwoPoints e r t i in
  o / (u - n).

(** [getRightMostInput (inputs)]: [n] is never updated in the source, so
    the result is the last input whose [initial.x] exceeds
    [Number.MIN_VALUE], [null] when there is none.  The result is given as
    a position in [inputs]; [initial_x] reads [e.initial.x]. *)
Definition getRightMostInput {A} (initial_x : A -> number) (e : list A)
  : option nat :=
  (foldl (fun '(t, k) e0 =>
            (if gt (initial_x e0) MIN_VALUE then Some k else t, S k))
         (None, 0%nat) e).1.

Definition isInside (e t : number) (n : Element) : bool :=
  let r := rect n in
  gt e (left r) && lt e (left r + width r) &&
  gt t (top r) && lt t (top r + height r).

(** [getPathIndex (path, element)]: the last position of the element in
    the path, the length of the path when it is not on it. *)
Definition getPathIndex (e : list Element) (t : Element) : nat :=
  (foldl (fun '(n, r) e0 =>
            (if bool_decide (node e0 = node t) then r else n, S r))
         (length e, 0%nat) e).1.

End util.

(** ** [bundle.js], modules 17 and 16: [ZingEvent] and [Input] *)

Record Touch : Type := { touch_identifier : nat; touch_clientX : number; touch_clientY : number }.

(** A native event, as far as the engine reads it: its type, its time
    stamp, the changed touches of a touch event ([None] for a mouse or
    pointer event), its own client coordinates, the pointer identifier of a
    pointer event, the pressed buttons when the platform reports them, and
    its propagation path (the target first, then its ancestors). *)
Record Event : Type := {
  ev_type : string;
  ev_timeStamp : number;
  ev_changedTouches : option (list Touch);
  ev_clientX : number;
  ev_clientY : number;
  ev_pointerId : option nat;
  ev_buttons : option number;
  ev_path : list Element
}.

Module ZingEvent.

Record t : Type := mk {
  originalEvent : Event;
  type : option phase;
  x : number;
  y : number
}.

(** [new ZingEvent (event, touchIdentifier)]: for a touch event the
    coordinates are those of the changed touch with that identifier, the
    read throws when there is none. *)
Definition new (e : Event) (n : nat) : outcome t :=
  match ev_changedTouches e with
  | Some touches =>
      match List.find (fun c => bool_decide (touch_identifier c = n)) touches with
      | Some r => Ok (mk e (util.normalizeEvent (ev_type e))
                         (touch_clientX r) (touch_clientY r))
      | None => TypeError
      end
  | None => Ok (mk e (util.normalizeEvent (ev_type e))
                   (ev_clientX e) (ev_clientY e))
  end.

End ZingEvent.

(** The scratch object a gesture keeps on an input, with the properties
    the gestures write; a property never written is [None].  Rotate writes
    its four properties together, so they are one component.  No gesture
    writes a [length] property. *)
Record Sample : Type := { time : number; sx : number; sy : number }.

Record RotateProgress : Type := {
  initialAngle : number;
  previousAngle : number;
  distance : number;
  change : number
}.

Module Progress.

Record t : Type := {
  active : option bool;
  lastEmitted : option (number * number);
  rotate : option RotateProgress;
  moves : option (list Sample);
  start : option number
}.

Definition empty : t :=
  {| active := None; lastEmitted := None; rotate := None;
     moves := None; start := None |}.

Definition set_active (v : bool) (p : t) : t :=
  {| active := Some v; lastEmitted := lastEmitted p; rotate := rotate p;
     moves := moves p; start := start p |}.
Definition set_lastEmitted (v : number * number) (p : t) : t :=
  {| active := active p; lastEmitted := Some v; rotate := rotate p;
     moves := moves p; start := start p |}.
Definition set_rotate (v : RotateProgress) (p : t) : t :=
  {| active := active p; lastEmitted := lastEmitted p; rotate := Some v;
     moves := moves p; start := start p |}.
Definition set_moves (v : list Sample) (p : t) : t :=
  {| active := active p; lastEmitted := lastEmitted p; rotate := rotate p;
     moves := Some v; start := start p |}.
Definition set_start (v : number) (p : t) : t :=
  {| active := active p; lastEmitted := lastEmitted p; rotate := rotate p;
     moves := moves p; start := Some v |}.

(** The [length] property of a scratch object: [undefined]. *)
Definition length (p : t) : option number := None.

End Progress.

Module Input.

Record t : Type := mk {
  initial : ZingEvent.t;
  current : ZingEvent.t;
  previous : ZingEvent.t;
  identifier : nat;
  progress : gmap string Progress.t
}.

Definition new (e : Event) (n : nat) : outcome t :=
  match ZingEvent.new e n with
  | Ok r => Ok (mk r r r n ∅)
  | TypeError => TypeError
  end.

Definition update (this : t) (e : Event) (n : nat) : outcome t :=
  match ZingEvent.new e n with
  | Ok r => Ok (mk (initial this) r (current this) (identifier this)
                   (progress this))
  | TypeError => TypeError
  end.

(** [getGestureProgress (id)] returns the scratch object stored under
    [id], an empty one when there is none yet (the source stores that
    empty object on the way; every read of [progress] goes through this
    method, so the stored empty object and the absent one read alike). *)
Definition getGestureProgress (this : t) (id : string) : Progress.t :=
  default Progress.empty (progress this !! id).

(** An assignment to a property of the object [getGestureProgress (id)]
    returned. *)
Definition setGestureProgress (this : t) (id : string) (p : Progress.t) : t :=
  mk (initial this) (current this) (previous this) (identifier this)
     (<[id := p]> (progress this)).

Definition getCurrentEventType (this : t) : option phase :=
  ZingEvent.type (current this).

Definition resetProgress (this : t) (id : string) : t :=
  setGestureProgress this id Progress.empty.

End Input.

(** ** [bundle.js], module 4: [Gesture] *)

Module Gesture.

Record t : Type := mk { type : option string; id : option string }.

Definition getType (this : t) : option string := type this.

Definition getId (this : t) : option string :=
  match id this with Some i => Some i | None => type this end.

(** The property name a value is converted to when it indexes an
    object. *)
Definition key (k : option string) : string := default "null" k.

End Gesture.

(** ** [bundle.js], module 10: [Pan] *)

Module Pan.

Definition DEFAULT_INPUTS : nat := 1.
Definition DEFAULT_MIN_THRESHOLD : number := 1.

Record t : Type := mk {
  gesture : Gesture.t;
  numInputs : nat;
  threshold : number
}.

Record options : Type := {
  opt_numInputs : option nat;
  opt_threshold : option number
}.

(** [new Pan (options)]: an option that is absent or falsy takes its
    default. *)
Definition new (e : option options) : t :=
  mk (Gesture.mk (Some "pan") None)
     (match e ≫= opt_numInputs with
      | Some (S k) => S k
      | _ => DEFAULT_INPUTS
      end)
     (match e ≫= opt_threshold with
      | Some v => if truthy v then v else DEFAULT_MIN_THRESHOLD
      | None => DEFAULT_MIN_THRESHOLD
      end).

Definition key (this : t) : string := Gesture.key (Gesture.getId (gesture this)).

Record data : Type := {
  distanceFromOrigin : number;
  directionFromOrigin : number;
  currentDirection : number;
  change : number * number
}.

Definition start (this : t) (e : list Input.t) : list Input.t :=
  (fun e0 =>
     let n := Input.getGestureProgress e0 (key this) in
     let cur := Input.current e0 in
     Input.setGestureProgress e0 (key this)
       (Progress.set_lastEmitted (ZingEvent.x cur, ZingEvent.y cur) (Progress.set_active true n)))
  <$> e.

(** The inner function of [move] that packs the data of one input. *)
Definition packData (e : Input.t) (lastEmitted : number * number) : data :=
  let ini := Input.initial e in
  let cur := Input.current e in
  {| distanceFromOrigin :=
       util.distanceBetweenTwoPoints (ZingEvent.x ini) (ZingEvent.x cur)
                                     (ZingEvent.y ini) (ZingEvent.y cur);
     directionFromOrigin :=
       util.getAngle (ZingEvent.x ini) (ZingEvent.y ini)
                     (ZingEvent.x cur) (ZingEvent.y cur);
     currentDirection :=
       util.getAngle lastEmitted.1 lastEmitted.2
                     (ZingEvent.x cur) (ZingEvent.y cur);
     change := (ZingEvent.x cur - lastEmitted.1, ZingEvent.y cur - lastEmitted.2) |}.

(** The body of [e.forEach] in [move], from index [t] on; [u] is
    [output.data] so far.  Reading [lastEmitted.x] on a scratch object
    without [lastEmitted] throws. *)
Fixpoint move_each (this : t) (e : list Input.t) (t0 : nat)
         (u : list (option data))
  : outcome (list (option data) * list Input.t) :=
  match e with
  | [] => Ok (u, [])
  | e0 :: rest =>
      let n := Input.getGestureProgress e0 (key this) in
      let cur := Input.current e0 in
      match Progress.lastEmitted n with
      | None => TypeError
      | Some last =>
          let o := util.distanceBetweenTwoPoints
                     last.1 last.2 (ZingEvent.x cur) (ZingEvent.y cur) in
          let a := ge o (threshold this) in
          let '(u', e0') :=
            if default false (Progress.active n) && a
            then (array_set u t0 (packData e0 last),
                  Input.setGestureProgress e0 (key this)
                    (Progress.set_lastEmitted (ZingEvent.x cur, ZingEvent.y cur) n))
            else (u, e0) in
          match move_each this rest (S t0) u' with
          | Ok (u'', rest') => Ok (u'', e0' :: rest')
          | TypeError => TypeError
          end
      end
  end.

(** [move (inputs, state, element)]: [None] is the [null] result,
    [Some data] the object [{data}]. *)
Definition move (this : t) (e : list Input.t)
  : outcome (option (list (option data)) * list Input.t) :=
  if bool_decide (numInputs this = length e) then
    match move_each this e 0 [] with
    | Ok (u, e') => Ok (Some u, e')
    | TypeError => TypeError
    end
  else Ok (None, e).

Definition end_ (this : t) (e : list Input.t) : list Input.t :=
  (fun e0 =>
     Input.setGestureProgress e0 (key this)
       (Progress.set_active false (Input.getGestureProgress e0 (key this))))
  <$> e.

End Pan.

(** ** [bundle.js], module 12: [Rotate] *)

Module Rotate.

Definition DEFAULT_INPUTS : nat := 2.

Record t : Type := mk { gesture : Gesture.t; numInputs : nat }.

(** [new Rotate (options)] *)
Definition new (numInputs : option nat) : t :=
  mk (Gesture.mk (Some "rotate") None)
     (match numInputs with Some (S k) => S k | _ => DEFAULT_INPUTS end).

Definition key (this : t) : string := Gesture.key (Gesture.getId (gesture this)).

(** [state.numActiveInputs ()] of module 9, on the inputs of the state. *)
Definition numActiveInputs (inputs : list Input.t) : nat :=
  length (filter (fun e => ZingEvent.type (Input.current e) <> Some PEnd) inputs).

Record data : Type := {
  angle : number;
  distanceFromOrigin : number;
  distanceFromLast : number
}.

(** The pivot and the position in [inputs] of the input that is followed. *)
Definition pivot_and_input (r : nat) (e : list Input.t) (n : Element)
  : outcome (number * number * nat) :=
  if bool_decide (r = 1%nat) then
    let a := rect n in
    Ok (left a + width a / 2, top a + height a / 2, 0%nat)
  else
    match e !! 0%nat, e !! 1%nat with
    | Some e0, Some e1 =>
        match util.getRightMostInput
                (fun e => ZingEvent.x (Input.initial e)) e with
        | Some k =>
            Ok (util.getMidpoint
                  (ZingEvent.x (Input.current e0)) (ZingEvent.x (Input.current e1))
                  (ZingEvent.y (Input.current e0)) (ZingEvent.y (Input.current e1)),
                k)
        | None => TypeError
        end
    | _, _ => TypeError
    end.

(** The update of the scratch object for the new angle [s]. *)
Definition step (c : option RotateProgress) (s : number) : RotateProgress :=
  match c with
  | Some c0 =>
      if truthy (initialAngle c0) then
        let change := util.getAngularDistance (previousAngle c0) s in
        {| initialAngle := initialAngle c0; previousAngle := s;
           distance := distance c0 + change; change := change |}
      else
        {| initialAngle := s; previousAngle := s; distance := 0; change := 0 |}
  | None =>
      {| initialAngle := s; previousAngle := s; distance := 0; change := 0 |}
  end.

(** [move (inputs, state, element)], where [inputs] is [state.inputs]. *)
Definition move (this : t) (e : list Input.t) (n : Element)
  : outcome (option data * list Input.t) :=
  let r := numActiveInputs e in
  if bool_decide (numInputs this <> r) then Ok (None, e)
  else
    match pivot_and_input r e n with
    | Ok (i, k) =>
        match e !! k with
        | Some o =>
            let s := util.getAngle i.1 i.2 (ZingEvent.x (Input.current o))
                                   (ZingEvent.y (Input.current o)) in
            let c := Input.getGestureProgress o (key this) in
            let c' := step (Progress.rotate c) s in
            Ok (Some {| angle := s; distanceFromOrigin := distance c';
                        distanceFromLast := change c' |},
                <[k := Input.setGestureProgress o (key this) (Progress.set_rotate c' c)]> e)
        | None => TypeError
        end
    | TypeError => TypeError
    end.

End Rotate.

(** ** [bundle.js], module 13: [Swipe] *)

(** [(new Date).getTime ()] is read once per iteration of a loop over the
    inputs; a function [now] gives the value read in iteration [k]. *)

Module Swipe.

Definition DEFAULT_INPUTS : nat := 1.
Definition DEFAULT_MAX_REST_TIME : number := 100.
Definition DEFAULT_ESCAPE_VELOCITY : number := 2 / 10.
Definition DEFAULT_TIME_DISTORTION : number := 100.
Definition DEFAULT_MAX_PROGRESS_STACK : number := 10.

Record t : Type := mk {
  gesture : Gesture.t;
  numInputs : nat;
  maxRestTime : number;
  escapeVelocity : number;
  timeDistortion : number;
  maxProgressStack : number
}.

Definition or_default (v : option number) (d : number) : number :=
  match v with Some x => if truthy x then x else d | None => d end.

(** [new Swipe (options)] *)
Definition new (numInputs : option nat)
           (maxRestTime escapeVelocity timeDistortion maxProgressStack : option number)
  : t :=
  mk (Gesture.mk (Some "swipe") None)
     (match numInputs with Some (S k) => S k | _ => DEFAULT_INPUTS end)
     (or_default maxRestTime DEFAULT_MAX_REST_TIME)
     (or_default escapeVelocity DEFAULT_ESCAPE_VELOCITY)
     (or_default timeDistortion DEFAULT_TIME_DISTORTION)
     (or_default maxProgressStack DEFAULT_MAX_PROGRESS_STACK).

Definition key (this : t) : string := Gesture.key (Gesture.getId (gesture this)).

(** One iteration of the loop of [move]: the sample is pushed, and the
    oldest one is shifted out when [progress.length] (a property of the
    scratch object, not of [progress.moves]) exceeds [maxProgressStack];
    a comparison with [undefined] is false. *)
Definition move_one (this : t) (time : number) (e0 : Input.t) : Input.t :=
  let i := Input.getGestureProgress e0 (key this) in
  let moves0 := default [] (Progress.moves i) in
  let pushed := moves0 ++ [ {| time := time;
                               sx := ZingEvent.x (Input.current e0);
                               sy := ZingEvent.y (Input.current e0) |} ] in
  let moves1 :=
    if match Progress.length i with
       | Some l => gt l (maxProgressStack this)
       | None => false
       end
    then tail pushed else pushed in
  Input.setGestureProgress e0 (key this) (Progress.set_moves moves1 i).

(** [move (inputs, state, element)]; the result is always [null]. *)
Definition move (this : t) (now : nat -> number) (e : list Input.t)
  : list Input.t :=
  if bool_decide (numInputs this = length e)
  then imap (fun r e0 => move_one this (now r) e0) e
  else e.

Record data : Type := {
  velocity : number;
  distance : number;
  duration : number;
  currentDirection : number
}.

(** The three results of [end]: [undefined] (the bare [return]), [null],
    or the object [{data}]. *)
Inductive result : Type :=
| Undefined
| Null
| Data (d : list (option data)).

(** The search, from the last sample down, for a sample whose time
    differs from [time]. *)
Definition lastDistinct (time0 : number) (ms : list Sample) : option Sample :=
  List.find (fun m => negb (eqb (time m) time0)) (rev ms).

(** The first loop of [end], from index [n] on: [d] is [output.data] so
    far and [a] the function-scoped variable [velocity], [None] while it
    is [undefined].  The loop stops with [inl] on an early return.  [pop]
    takes the last sample [i] off [progress.moves]; with more than two
    samples there is one, and a second one for the fallback. *)
Fixpoint end_each (this : t) (now : nat -> number) (e : list Input.t)
         (n : nat) (d : list (option data)) (a : option number)
  : (result + list (option data) * option number) * list Input.t :=
  match e with
  | [] => (inr (d, a), [])
  | e0 :: rest =>
      if bool_decide (ZingEvent.type (Input.current e0) <> Some PEnd)
      then (inl Undefined, e)
      else
        let r := Input.getGestureProgress e0 (key this) in
        let continue (e0' : Input.t) d' a' :=
          let '(res, rest') := end_each this now rest (S n) d' a' in
          (res, e0' :: rest') in
        match Progress.moves r with
        | Some ms =>
            if bool_decide (2 < length ms)%nat then
              match last ms with
              | Some i =>
                  let ms1 := removelast ms in
                  if gt (now n - time i) (maxRestTime this)
                  then (inl Null,
                        Input.setGestureProgress e0 (key this)
                          (Progress.set_moves ms1 r) :: rest)
                  else
                    let '(u, ms2) :=
                      match lastDistinct (time i) ms1 with
                      | Some u => (u, ms1)
                      | None =>
                          let u := default i (last ms1) in
                          ({| time := time u + timeDistortion this;
                              sx := sx u; sy := sy u |},
                           removelast ms1)
                      end in
                    let a' := util.getVelocity (sx u) (sy u) (time u)
                                               (sx i) (sy i) (time i) in
                    continue
                      (Input.setGestureProgress e0 (key this)
                         (Progress.set_moves ms2 r))
                      (array_set d n
                         {| velocity := a';
                            distance := util.distanceBetweenTwoPoints
                                          (sx u) (sx i) (sy u) (sy i);
                            duration := time i - time u;
                            currentDirection :=
                              util.getAngle (sx u) (sy u) (sx i) (sy i) |})
                      (Some a')
              | None => continue e0 d a
              end
            else continue e0 d a
        | None => continue e0 d a
        end
  end.

(** The second loop of [end] compares the variable [velocity], as the
    first loop left it, once per entry of [output.data]. *)
Definition escapes (this : t) (d : list (option data)) (a : option number) : bool :=
  forallb (fun _ => negb (match a with
                          | Some v => lt v (escapeVelocity this)
                          | None => false
                          end)) d.

(** [end (inputs)] *)
Definition end_ (this : t) (now : nat -> number) (e : list Input.t)
  : result * list Input.t :=
  if bool_decide (numInputs this = length e) then
    match end_each this now e 0 [] None with
    | (inl res, e') => (res, e')
    | (inr (d, a), e') =>
        if escapes this d a
        then (if bool_decide (0 < length d)%nat then Data d else Null, e')
        else (Null, e')
    end
  else (Null, e).

End Swipe.

(** ** [bundle.js], module 14: [Tap] *)

Module Tap.

Definition DEFAULT_MIN_DELAY_MS : number := 0.
Definition DEFAULT_MAX_DELAY_MS : number := 300.
Definition DEFAULT_INPUTS : nat := 1.
Definition DEFAULT_MOVE_PX_TOLERANCE : number := 10.

Record t : Type := mk {
  gesture : Gesture.t;
  minDelay : number;
  maxDelay : number;
  numInputs : nat;
  tolerance : number
}.

(** [new Tap (options)] *)
Definition new (minDelay maxDelay : option number) (numInputs : option nat)
           (tolerance : option number) : t :=
  mk (Gesture.mk (Some "tap") None)
     (Swipe.or_default minDelay DEFAULT_MIN_DELAY_MS)
     (Swipe.or_default maxDelay DEFAULT_MAX_DELAY_MS)
     (match numInputs with Some (S k) => S k | _ => DEFAULT_INPUTS end)
     (Swipe.or_default tolerance DEFAULT_MOVE_PX_TOLERANCE).

(** Tap keeps its scratch object under [this.type]. *)
Definition key (this : t) : string := Gesture.key (Gesture.type (gesture this)).

(** [start (inputs)]; the result is always [null]. *)
Definition start (this : t) (now : nat -> number) (e : list Input.t)
  : list Input.t :=
  if bool_decide (length e = numInputs this)
  then imap (fun k e0 =>
               Input.setGestureProgress e0 (key this)
                 (Progress.set_start (now k) (Input.getGestureProgress e0 (key this)))) e
  else e.

(** The test of the loop of [move] on one input. *)
Definition movedTooFar (this : t) (e0 : Input.t) : bool :=
  bool_decide (Input.getCurrentEventType e0 = Some PMove) &&
  negb (util.isWithin (ZingEvent.x (Input.current e0)) (ZingEvent.y (Input.current e0))
                      (ZingEvent.x (Input.previous e0)) (ZingEvent.y (Input.previous e0))
                      (tolerance this)).

(** [move (inputs, state, element)]; the result is always [null]. *)
Definition move (this : t) (e : list Input.t) : list Input.t :=
  if existsb (movedTooFar this) e
  then (fun e0 => Input.resetProgress e0 (key this)) <$> e
  else e.

(** The loop of [end]: the earliest [start], from [t0], or [None] on an
    early [return null]. *)
Fixpoint earliest (this : t) (e : list Input.t) (t0 : number) : option number :=
  match e with
  | [] => Some t0
  | e0 :: rest =>
      if bool_decide (Input.getCurrentEventType e0 <> Some PEnd) then None
      else
        let r := Input.getGestureProgress e0 (key this) in
        match Progress.start r with
        | Some s =>
            if truthy s then earliest this rest (if lt s t0 then s else t0)
            else None
        | None => None
        end
  end.

(** [end (inputs)]: [Some interval] is the object [{interval}], [None]
    is [null]. *)
Definition end_ (this : t) (now : number) (e : list Input.t)
  : option number * list Input.t :=
  if bool_decide (length e <> numInputs this) then (None, e)
  else
    match earliest this e MAX_VALUE with
    | None => (None, e)
    | Some t0 =>
        let i := now - t0 in
        if le (minDelay this) i && ge (maxDelay this) i then (Some i, e)
        else (None, (fun e0 => Input.resetProgress e0 (key this)) <$> e)
    end.

End Tap.

(** ** [bundle.js], module 9: [State] *)

Module BundleState.

Definition DEFAULT_MOUSE_ID : nat := 0.

(** [findInputById], the position of the first input with that
    identifier. *)
Fixpoint findIndex (e : list Input.t) (t0 : nat) : option nat :=
  match e with
  | [] => None
  | e0 :: rest =>
      if bool_decide (Input.identifier e0 = t0) then Some 0%nat
      else S <$> findIndex rest t0
  end.

Definition find (e : list Input.t) (t0 : nat) : option Input.t :=
  k ← findIndex e t0; e !! k.

Definition resetInputs : list Input.t := [].

(** The inner function [update (event, state, identifier, regionElement)]
    of [updateInputs], on [state.inputs]. *)
Definition update (e : Event) (inputs : list Input.t) (n : nat) (r : Element)
  : outcome (list Input.t) :=
  let i := util.normalizeEvent (ev_type e) in
  match findIndex inputs n ≫= fun k => pair k <$> inputs !! k with
  | Some (k, o) =>
      if bool_decide (i = Some PStart) then Ok resetInputs
      else if negb (util.isInside (ZingEvent.x (Input.current o))
                                  (ZingEvent.y (Input.current o)) r)
      then Ok resetInputs
      else
        match Input.update o e n with
        | Ok o' => Ok (<[k := o']> inputs)
        | TypeError => TypeError
        end
  | None =>
      if bool_decide (i = Some PStart) then
        match Input.new e n with
        | Ok o' => Ok (inputs ++ [o'])
        | TypeError => TypeError
        end
      else Ok resetInputs
  end.

(** [updateInputs (event, regionElement)]: a touch event updates one
    input per changed touch, a pointer event the input of its pointer, a
    mouse event the input [DEFAULT_MOUSE_ID]. *)
Definition updateInputs (e : Event) (t0 : Element) (inputs : list Input.t)
  : outcome (list Input.t) :=
  match ev_changedTouches e with
  | Some touches =>
      foldl (fun acc i =>
               match acc with
               | Ok inputs' => update e inputs' (touch_identifier i) t0
               | TypeError => TypeError
               end) (Ok inputs) touches
  | None =>
      match ev_pointerId e with
      | Some id => update e inputs id t0
      | None => update e inputs DEFAULT_MOUSE_ID t0
      end
  end.

Definition numActiveInputs (inputs : list Input.t) : nat :=
  length (filter (fun e => ZingEvent.type (Input.current e) <> Some PEnd) inputs).

End BundleState.

(** ** [bundle.js], module 11: [Pinch] *)

(** Pinch keeps one property, [lastEmittedDistance], on the scratch object
    of the first input ([inputs[0]]) under [this.type]; [start] and [move]
    take its value and return the new one, [None] while it is [undefined].
    An arithmetic result on [undefined] is [NaN], which compares false. *)

Module Pinch.

Definition DEFAULT_INPUTS : nat := 2.
Definition DEFAULT_MIN_THRESHOLD : number := 1.

Record t : Type := mk { gesture : Gesture.t; threshold : number }.

(** [new Pinch (options)] *)
Definition new (threshold : option number) : t :=
  mk (Gesture.mk (Some "pinch") None)
     (Swipe.or_default threshold DEFAULT_MIN_THRESHOLD).

(** [Gesture.isValid (inputs, state, element)] of module 4. *)
Definition isValid (e : list Input.t) (n : Element) : bool :=
  forallb (fun e0 => util.isInside (ZingEvent.x (Input.initial e0))
                                   (ZingEvent.y (Input.initial e0)) n) e.

(** The distance of the current positions of the first two inputs. *)
Definition spread (e0 e1 : Input.t) : number :=
  util.distanceBetweenTwoPoints
    (ZingEvent.x (Input.current e0)) (ZingEvent.x (Input.current e1))
    (ZingEvent.y (Input.current e0)) (ZingEvent.y (Input.current e1)).

(** [start (inputs, state, element)]: the new [lastEmittedDistance]. *)
Definition start (this : t) (e : list Input.t) (n : Element)
           (lastEmittedDistance : option number) : option number :=
  if negb (isValid e n) then lastEmittedDistance
  else if bool_decide (length e = DEFAULT_INPUTS) then
    match e !! 0%nat, e !! 1%nat with
    | Some e0, Some e1 => Some (spread e0 e1)
    | _, _ => lastEmittedDistance
    end
  else lastEmittedDistance.

Record data : Type := {
  distance : number;
  center : number * number;
  change : number
}.

(** [move (inputs, state, element)], where [inputs] is [state.inputs]:
    the result ([None] is [null]) and the new [lastEmittedDistance]. *)
Definition move (this : t) (e : list Input.t) (lastEmittedDistance : option number)
  : outcome (option data * option number) :=
  if bool_decide (BundleState.numActiveInputs e = DEFAULT_INPUTS) then
    match e !! 0%nat, e !! 1%nat with
    | Some e0, Some e1 =>
        let r := spread e0 e1 in
        let i := util.getMidpoint
                   (ZingEvent.x (Input.current e0)) (ZingEvent.x (Input.current e1))
                   (ZingEvent.y (Input.current e0)) (ZingEvent.y (Input.current e1)) in
        match lastEmittedDistance with
        | Some l =>
            let o := r - l in
            if ge (Rabs o) (threshold this)
            then Ok (Some {| distance := r; center := i; change := o |}, Some r)
            else Ok (None, lastEmittedDistance)
        | None => Ok (None, lastEmittedDistance)
        end
    | _, _ => TypeError
    end
  else Ok (None, lastEmittedDistance).

End Pinch.

(** ** [src/core/State.js], with the [Input] class of [Input.js] *)

(** [ZingEvent.js] and [util.js] of the refactored sources are not among
    the files: the event wrapper, its [type] and the [normalizeEvent] table
    are parameters.  [Input.update] is called with the event alone, so the
    wrapper may get no identifier. *)

Module State.
Section State.

Variable ZingEvent : Type.
Variable newZingEvent : Event -> option nat -> ZingEvent.
Variable type : ZingEvent -> option phase.
Variable normalizeEvent : string -> option phase.

Record Input : Type := mkInput {
  initial : ZingEvent;
  current : ZingEvent;
  previous : ZingEvent;
  identifier : nat;
  progress : gmap string Progress.t
}.

Definition newInput (event : Event) (identifier : nat) : Input :=
  let currentEvent := newZingEvent event (Some identifier) in
  mkInput currentEvent currentEvent currentEvent identifier ∅.

Definition phase_of (i : Input) : option phase := type (current i).

Definition update (this : Input) (event : Event) (touchIdentifier : option nat)
  : Input :=
  mkInput (initial this) (newZingEvent event touchIdentifier) (current this)
          (identifier this) (progress this).

(** [this.inputs], an array indexed by identifier, with holes. *)
Definition inputs_t : Type := list (option Input).

Definition clearEndedInputs (inputs : inputs_t) : inputs_t :=
  (fun i => match i with
            | Some i0 => if bool_decide (phase_of i0 = Some PEnd) then None else Some i0
            | None => None
            end) <$> inputs.

Definition getInputsInPhase (inputs : inputs_t) (p : phase) : list Input :=
  filter (fun i => phase_of i = Some p) (omap (fun i => i) (inputs : list (option Input))).

Definition hasOnlyEndedInputs (inputs : inputs_t) : bool :=
  bool_decide (length (getInputsInPhase inputs PEnd) = length inputs).

Definition getCurrentEvents (inputs : inputs_t) : list (option ZingEvent) :=
  (fun i : option Input => current <$> i) <$> (inputs : list (option Input)).

Definition getInputsNotInPhase (inputs : inputs_t) (p : phase) : list Input :=
  filter (fun i => phase_of i <> Some p) (omap (fun i => i) (inputs : list (option Input))).

Definition resetInputs : inputs_t := [].

Definition updateInput (event : Event) (identifier : nat) (inputs : inputs_t)
  : inputs_t :=
  if bool_decide (normalizeEvent (ev_type event) = Some PStart) then
    array_set inputs identifier (newInput event identifier)
  else
    match array_get inputs identifier with
    | Some i => array_set inputs identifier (update i event None)
    | None => inputs
    end.

End State.
End State.

(** ** [bundle.js], modules 15, 8 and 6: [Binding], [dispatcher], [arbiter] *)

Record Binding : Type := {
  element : Element;
  gesture : Gesture.t;
  capture : bool;
  bindOnce : bool
}.

Module arbiter.
Section arbiter.

(** The data a gesture hook returns, and the call
    [binding.gesture[type] (state.inputs, state, binding.element)] of
    whichever gesture the binding holds: it may update the scratch
    objects of the inputs, and [None] is a falsy result. *)
Variable Data : Type.
Variable invoke :
  phase -> Binding -> list Input.t -> outcome (option Data * list Input.t).

Record Candidate : Type := {
  binding : Binding;
  data : Data;
  events : list ZingEvent.t
}.

(** Module 8, [dispatcher (bindings, event, state)]: the candidates in
    the order of the bindings. *)
Fixpoint dispatcher_each (r : phase) (events : list ZingEvent.t)
         (e : list Binding) (inputs : list Input.t)
  : outcome (list Candidate * list Input.t) :=
  match e with
  | [] => Ok ([], inputs)
  | t0 :: rest =>
      match invoke r t0 inputs with
      | Ok (u, inputs') =>
          match dispatcher_each r events rest inputs' with
          | Ok (acc, inputs'') =>
              Ok (match u with
                  | Some d => {| binding := t0; data := d; events := events |} :: acc
                  | None => acc
                  end, inputs'')
          | TypeError => TypeError
          end
      | TypeError => TypeError
      end
  end.

Definition dispatcher (e : list Binding) (r : phase) (inputs : list Input.t)
  : outcome (list Candidate * list Input.t) :=
  dispatcher_each r (Input.current <$> inputs) e inputs.

(** [state.retrieveBindingsByInitialPos ()] *)
Definition retrieveBindingsByInitialPos (bindings : list Binding)
           (inputs : list Input.t) : list Binding :=
  List.filter
    (fun t0 =>
       existsb (fun e => util.isInside (ZingEvent.x (Input.initial e))
                                       (ZingEvent.y (Input.initial e))
                                       (element t0)) inputs)
    bindings.

Definition kind (e : Candidate) : string :=
  Gesture.key (Gesture.getId (gesture (binding e))).

(** The body of [toBeDispatched.forEach]: [u] holds the own properties of
    the object that maps a gesture id to the candidate kept for it so far.
    The object starts as [{}]: for an id that names an inherited property
    and is not yet an own one, [u[t]] is the inherited value, which is
    truthy, and reading [u[t].binding.element] throws. *)
Definition resolve (c : list Element) (u : gmap string Candidate) (e : Candidate)
  : outcome (gmap string Candidate) :=
  let t0 := kind e in
  match u !! t0 with
  | Some w =>
      Ok (if bool_decide (util.getPathIndex c (element (binding e))
                          < util.getPathIndex c (element (binding w)))%nat
          then <[t0 := e]> u
          else u)
  | None =>
      if bool_decide (t0 ∈ Object_prototype) then TypeError
      else Ok (<[t0 := e]> u)
  end.

Definition winners (c : list Element) (a : list Candidate)
  : outcome (gmap string Candidate) :=
  foldl (fun acc e => match acc with
                      | Ok u => resolve c u e
                      | TypeError => TypeError
                      end) (Ok ∅) a.

(** The candidates handed to [dispatch] by [Object.keys (u).forEach]. *)
Definition forwarded (c : list Element) (a : list Candidate)
  : outcome (list Candidate) :=
  match winners c a with
  | Ok u => Ok (map_to_list u).*2
  | TypeError => TypeError
  end.

(** Module 7, [dispatch]: after [dispatchEvent] a binding made with
    [bindOnce] calls [ZingTouch.unbind], and the global [ZingTouch] has no
    such function. *)
Definition dispatch (w : Candidate) : outcome unit :=
  if bindOnce (binding w) then TypeError else Ok tt.

Record Region : Type := {
  region_element : Element;
  bindings : list Binding;
  inputs : list Input.t
}.

(** [arbiter (event, region)]: the candidates dispatched and the inputs
    of the region afterwards. *)
Definition arbiter (e : Event) (t0 : Region)
  : outcome (list Candidate * list Input.t) :=
  let n := inputs t0 in
  let r := util.normalizeEvent (ev_type e) in
  if bool_decide (length n <> 0%nat) || bool_decide (r = Some PStart) then
    if match ev_buttons e with
       | Some b => bool_decide (r <> Some PEnd) && eqb b 0
       | None => false
       end
    then Ok ([], BundleState.resetInputs)
    else
      match BundleState.updateInputs e (region_element t0) n with
      | Ok n1 =>
          let i := retrieveBindingsByInitialPos (bindings t0) n1 in
          let purge (n2 : list Input.t) :=
            if bool_decide
                 (length (filter (fun e0 => Input.getCurrentEventType e0 = Some PEnd) n2)
                  = length n2)
            then BundleState.resetInputs else n2 in
          if bool_decide (0 < length i)%nat then
            match r with
            | Some r0 =>
                match dispatcher i r0 n1 with
                | Ok (a, n2) =>
                    match forwarded (ev_path e) a with
                    | Ok l =>
                        if forallb (fun w => match dispatch w with
                                             | Ok _ => true
                                             | TypeError => false
                                             end) l
                        then Ok (l, purge n2)
                        else TypeError
                    | TypeError => TypeError
                    end
                | TypeError => TypeError
                end
            | None => TypeError
            end
          else Ok ([], purge n1)
      | TypeError => TypeError
      end
  else Ok ([], n).

End arbiter.
End arbiter.

Arguments arbiter.Candidate : clear implicits.
Arguments arbiter.kind {Data} e.
Arguments arbiter.resolve {Data} c u e.
Arguments arbiter.winners {Data} c a.
Arguments arbiter.forwarded {Data} c a.
Arguments arbiter.dispatch {Data} w.
Arguments arbiter.binding {Data} c.


(** ** Scenarios *)

(** Two nested regions bound to the same registered gesture: [outer] was
    bound first, [inner] lies inside it and is the target of the event. *)
Module Nested.

Definition inner : Element :=
  {| node := 1; rect := {| left := 10; top := 10; width := 10; height := 10 |} |}.
Definition outer : Element :=
  {| node := 2; rect := {| left := 0; top := 0; width := 100; height := 100 |} |}.

Definition pan : Gesture.t := Gesture.mk (Some "pan") (Some "0-0").

Definition bind (e : Element) : Binding :=
  {| element := e; gesture := pan; capture := false; bindOnce := false |}.

Definition candidate (e : Element) (d : nat) : arbiter.Candidate nat :=
  {| arbiter.binding := bind e; arbiter.data := d; arbiter.events := [] |}.

Definition path : list Element := [inner; outer].

Definition candidates : list (arbiter.Candidate nat) :=
  [candidate outer 1; candidate inner 2].

(** A gesture hook that answers every binding with the node of its
    element and leaves the inputs alone. *)
Definition hook (r : phase) (b : Binding) (inputs : list Input.t)
  : outcome (option nat * list Input.t) :=
  Ok (Some (node (element b)), inputs).

End Nested.

(** Mouse events on a region. *)
Module Mouse.

Definition region : Element :=
  {| node := 0; rect := {| left := 0; top := 0; width := 100; height := 100 |} |}.

Definition event (type : string) (x y : number) : Event :=
  {| ev_type := type; ev_timeStamp := 0; ev_changedTouches := None;
     ev_clientX := x; ev_clientY := y;
     ev_pointerId := None; ev_buttons := None; ev_path := [region] |}.

Definition zing (type : string) (x y : number) : ZingEvent.t :=
  ZingEvent.mk (event type x y) (util.normalizeEvent type) x y.

(** An instance of the event wrapper of [State.js]: the event with the
    identifier it was built with. *)
Definition wrap (e : Event) (id : option nat) : Event * option nat := (e, id).
Definition wrap_type (z : Event * option nat) : option phase :=
  util.normalizeEvent (ev_type z.1).

End Mouse.

(** Two touches on a region: touch 0 starts at (5, 5), touch 1 starts at
    (50, 50), touch 0 ends, and a new touch with identifier 0 starts at
    (7, 7) while touch 1 is still down. *)
Module Touches.

Definition touch (id : nat) (x y : number) : Touch :=
  {| touch_identifier := id; touch_clientX := x; touch_clientY := y |}.

Definition event (type : string) (changed : list Touch) : Event :=
  {| ev_type := type; ev_timeStamp := 0; ev_changedTouches := Some changed;
     ev_clientX := 0; ev_clientY := 0;
     ev_pointerId := None; ev_buttons := None; ev_path := [Mouse.region] |}.

Definition e1 : Event := event "touchstart" [touch 0 5 5].
Definition e2 : Event := event "touchstart" [touch 1 50 50].
Definition e3 : Event := event "touchend" [touch 0 5 5].
Definition e4 : Event := event "touchstart" [touch 0 7 7].
Definition e5 : Event := event "touchmove" [touch 2 9 9].

Definition zing (e : Event) (x y : number) : ZingEvent.t :=
  ZingEvent.mk e (util.normalizeEvent (ev_type e)) x y.

(** The inputs after [e1], [e2] and [e3]: touch 0 has ended, touch 1 is
    down. *)
Definition A : Input.t := Input.mk (zing e1 5 5) (zing e3 5 5) (zing e1 5 5) 0 ∅.
Definition B : Input.t := Input.mk (zing e2 50 50) (zing e2 50 50) (zing e2 50 50) 1 ∅.

(** The same inputs in the array of [State.js], indexed by identifier. *)
Definition A' : State.Input (Event * option nat) :=
  State.mkInput _ (Mouse.wrap e1 (Some 0%nat)) (Mouse.wrap e3 None)
                (Mouse.wrap e1 (Some 0%nat)) 0 ∅.
Definition B' : State.Input (Event * option nat) :=
  State.mkInput _ (Mouse.wrap e2 (Some 1%nat)) (Mouse.wrap e2 (Some 1%nat))
                (Mouse.wrap e2 (Some 1%nat)) 1 ∅.

End Touches.

(** A mouse pressed at [(x0, y0)] and moved to [(x1, y1)], seen by a Pan
    gesture: the input after [mousedown], after [Pan.start], and after the
    update for [mousemove]. *)
Module Drag.

Definition pressed (x0 y0 : number) : Input.t :=
  Input.mk (Mouse.zing "mousedown" x0 y0) (Mouse.zing "mousedown" x0 y0)
           (Mouse.zing "mousedown" x0 y0) 0 ∅.

Definition started (x0 y0 : number) : Input.t :=
  Input.mk (Mouse.zing "mousedown" x0 y0) (Mouse.zing "mousedown" x0 y0)
           (Mouse.zing "mousedown" x0 y0) 0
           {[ "pan" := Progress.set_lastEmitted (x0, y0)
                         (Progress.set_active true Progress.empty) ]}.

Definition moved (x0 y0 x1 y1 : number) : Input.t :=
  Input.mk (Mouse.zing "mousedown" x0 y0) (Mouse.zing "mousemove" x1 y1)
           (Mouse.zing "mousedown" x0 y0) 0
           {[ "pan" := Progress.set_lastEmitted (x0, y0)
                         (Progress.set_active true Progress.empty) ]}.

(** The input once [Pan.move] has emitted for it. *)
Definition emitted (x0 y0 x1 y1 : number) : Input.t :=
  Input.mk (Mouse.zing "mousedown" x0 y0) (Mouse.zing "mousemove" x1 y1)
           (Mouse.zing "mousedown" x0 y0) 0
           {[ "pan" := Progress.set_lastEmitted (x1, y1)
                         (Progress.set_active true Progress.empty) ]}.

End Drag.

(** Fingers that have ended, with the samples a Swipe gesture recorded
    for them, and successive [Swipe.move] updates. *)
Module Fingers.

Definition sample (t0 x y : number) : Sample := {| time := t0; sx := x; sy := y |}.

Definition lifted (id : nat) (ms : list Sample) : Input.t :=
  Input.mk (Touches.zing (Touches.event "touchstart" [Touches.touch id 0 0]) 0 0)
           (Touches.zing (Touches.event "touchend" [Touches.touch id 0 0]) 0 0)
           (Touches.zing (Touches.event "touchmove" [Touches.touch id 0 0]) 0 0)
           id {[ "swipe" := Progress.set_moves ms Progress.empty ]}.

(** A finger that crept from (0, 0) to (1, 0) and one that ran from
    (0, 50) to (200, 50), both sampled at times 0, 10 and 20. *)
Definition slow : Input.t :=
  lifted 0 [sample 0 0 0; sample 10 0 0; sample 20 1 0].
Definition fast : Input.t :=
  lifted 1 [sample 0 0 50; sample 10 100 50; sample 20 200 50].

Definition two : Swipe.t := Swipe.new (Some 2%nat) None None None None.

(** The samples a Swipe gesture holds for an input. *)
Definition samples (this : Swipe.t) (e0 : Input.t) : list Sample :=
  default [] (Progress.moves (Input.getGestureProgress e0 (Swipe.key this))).

(** [k] successive calls of [Swipe.move]; [now j] is the clock of call
    [j]. *)
Fixpoint moves (this : Swipe.t) (now : nat -> nat -> number) (k : nat)
         (e : list Input.t) : list Input.t :=
  match k with
  | O => e
  | S j => Swipe.move this (now j) (moves this now j e)
  end.

End Fingers.

(** A two-finger tap: both fingers were stamped at time 100 by
    [Tap.start]; the first has lifted, the second is still down. *)
Module Taps.

Definition two : Tap.t := Tap.new None None (Some 2%nat) None.

Definition finger (id : nat) (type : string) : Input.t :=
  Input.mk (Touches.zing (Touches.event "touchstart" [Touches.touch id 5 5]) 5 5)
           (Touches.zing (Touches.event type [Touches.touch id 5 5]) 5 5)
           (Touches.zing (Touches.event "touchstart" [Touches.touch id 5 5]) 5 5)
           id {[ "tap" := Progress.set_start 100 Progress.empty ]}.

Definition lifted : Input.t := finger 0 "touchend".
Definition down : Input.t := finger 1 "touchstart".

(** The default, one-finger tap. *)
Definition one : Tap.t := Tap.new None None None None.

End Taps.

(** A one-input rotation about the centre (50, 50) of the region: the
    mouse is down and was last seen at [(x, y)]; [c] is what Rotate has
    written on its scratch object so far. *)
Module Turn.

Definition one : Rotate.t := Rotate.new (Some 1%nat).

Definition at_ (x y : number) (c : option RotateProgress) : Input.t :=
  Input.mk (Mouse.zing "mousedown" 60 50) (Mouse.zing "mousemove" x y)
           (Mouse.zing "mousedown" 60 50) 0
           (match c with
            | Some c0 => {[ "rotate" := Progress.set_rotate c0 Progress.empty ]}
            | None => ∅
            end).

Definition scratch (a p d c : number) : RotateProgress :=
  {| initialAngle := a; previousAngle := p; distance := d; change := c |}.

End Turn.

(** Two fingers down at (0, 0) and (10, 0), the second then moved to
    (20, 0). *)
Module Spread.

Definition finger (id : nat) (type : string) (x0 x : number) : Input.t :=
  Input.mk (Touches.zing (Touches.event "touchstart" [Touches.touch id x0 0]) x0 0)
           (Touches.zing (Touches.event type [Touches.touch id x 0]) x 0)
           (Touches.zing (Touches.event "touchstart" [Touches.touch id x0 0]) x0 0)
           id ∅.

Definition apart : list Input.t :=
  [finger 0 "touchstart" 0 0; finger 1 "touchmove" 10 20].

End Spread.

(** ** Specification vocabulary *)




(** The index [getPathIndex] gives a candidate, and the winner of a kind
    as the comparison of [arbiter] on these indices selects it. *)
Definition depth {Data} (c : list Element) (e : arbiter.Candidate Data) : nat :=
  util.getPathIndex c (element (arbiter.binding e)).

Definition first_lowest_index {Data} (c : list Element)
           (a : list (arbiter.Candidate Data)) (k : string)
           (w : arbiter.Candidate Data) : Prop :=
  arbiter.kind w = k /\
  exists l1 l2,
    a = l1 ++ w :: l2 /\
    (forall x, x ∈ l1 -> arbiter.kind x = k -> (depth c w < depth c x)%nat) /\
    (forall x, x ∈ l2 -> arbiter.kind x = k -> (depth c w <= depth c x)%nat).


(** The same input with the time stamps of its events re-parameterized
    by [f]. *)
Definition retime_event (f : number -> number) (z : ZingEvent.t) : ZingEvent.t :=
  let e := ZingEvent.originalEvent z in
  ZingEvent.mk {| ev_type := ev_type e; ev_timeStamp := f (ev_timeStamp e);
                  ev_changedTouches := ev_changedTouches e;
                  ev_clientX := ev_clientX e; ev_clientY := ev_clientY e;
                  ev_pointerId := ev_pointerId e; ev_buttons := ev_buttons e;
                  ev_path := ev_path e |}
               (ZingEvent.type z) (ZingEvent.x z) (ZingEvent.y z).

Definition retime (f : number -> number) (e0 : Input.t) : Input.t :=
  Input.mk (retime_event f (Input.initial e0)) (retime_event f (Input.current e0))
           (retime_event f (Input.previous e0)) (Input.identifier e0)
           (Input.progress e0).

(** The start stamp Tap holds for an input. *)
Definition tap_stamp (this : Tap.t) (e0 : Input.t) : option number :=
  Progress.start (Input.getGestureProgress e0 (Tap.key this)).

(** An input has ended and holds a stamp (a truthy one: not 0). *)
Definition tap_ended_stamped (this : Tap.t) (e0 : Input.t) : Prop :=
  Input.getCurrentEventType e0 = Some PEnd /\
  exists s, tap_stamp this e0 = Some s /\ s <> 0.

(** All [numInputs] inputs have ended and hold their stamp. *)
Definition tap_complete (this : Tap.t) (e : list Input.t) : Prop :=
  length e = Tap.numInputs this /\ Forall (tap_ended_stamped this) e.

(** The time elapsed at [now] since the earliest stamp. *)
Definition tap_interval (this : Tap.t) (now : number) (e : list Input.t) : number :=
  now - foldr Rmin MAX_VALUE (omap (tap_stamp this) e).

Definition tap_in_window (this : Tap.t) (i : number) : Prop :=
  Tap.minDelay this <= i <= Tap.maxDelay this.

(** A moving input stepped further than the tolerance of the tap on an
    axis since its previous sample. *)
Definition tap_stepped_beyond (this : Tap.t) (e0 : Input.t) : Prop :=
  Input.getCurrentEventType e0 = Some PMove /\
  (Tap.tolerance this
   < Rabs (ZingEvent.x (Input.current e0) - ZingEvent.x (Input.previous e0)) \/
   Tap.tolerance this
   < Rabs (ZingEvent.y (Input.current e0) - ZingEvent.y (Input.previous e0))).

(** [e2] is the input [e1] later on: its events have moved on to an end
    event and its scratch objects are as they were. *)
Definition tap_ended_after (e1 e2 : Input.t) : Prop :=
  Input.progress e2 = Input.progress e1 /\
  Input.getCurrentEventType e2 = Some PEnd.

(** * Properties *)

Lemma alloc_fresh v (h : gmap positive Point2D.t) :
  h !! (Point2DObj.alloc v h).1 = None.
Proof.
  unfold Point2DObj.alloc; simpl.
  apply not_elem_of_dom. apply is_fresh.
Qed.

Lemma alloc_lookup v (h : gmap positive Point2D.t) :
  (Point2DObj.alloc v h).2 !! (Point2DObj.alloc v h).1 = Some v.
Proof. unfold Point2DObj.alloc; simpl. apply lookup_insert_eq. Qed.

Lemma alloc_old v (h : gmap positive Point2D.t) l w :
  h !! l = Some w -> (Point2DObj.alloc v h).2 !! l = Some w.
Proof.
  intros Hl. unfold Point2DObj.alloc; simpl.
  rewrite lookup_insert_ne; [done|].
  intros <-. apply elem_of_dom_2 in Hl. by apply is_fresh in Hl.
Qed.

Lemma add_subtract_value (p q : Point2D.t) :
  Point2D.subtract (Point2D.add p q) q = p.
Proof.
  destruct p as [px py], q as [qx qy]; unfold Point2D.subtract, Point2D.add.
  simpl. f_equal; lra.
Qed.

(** C10: for Point2D objects [p] and [q] of a store (possibly the same
    object), [p.add(q).subtract(q)] returns a new object whose coordinates
    are those of [p]; both calls succeed, each result is a freshly allocated
    object, and every object already in the store, [p] and [q] among them,
    keeps its coordinates. *)
Theorem add_subtract_inverse (h : gmap positive Point2D.t) p q vp vq :
  h !! p = Some vp ->
  h !! q = Some vq ->
  exists r h1 s h2,
    Point2DObj.add p q h = Some (r, h1) /\
    Point2DObj.subtract r q h1 = Some (s, h2) /\
    h2 !! s = Some vp /\
    h !! r = None /\ h1 !! s = None /\
    (forall l w, h !! l = Some w -> h1 !! l = Some w /\ h2 !! l = Some w) /\
    Point2D.subtract (Point2D.add vp vq) vq = vp.
Proof.
  intros Hp Hq.
  set (a := Point2DObj.alloc (Point2D.add vp vq) h).
  set (b := Point2DObj.alloc (Point2D.subtract (Point2D.add vp vq) vq) a.2).
  exists a.1, a.2, b.1, b.2.
  assert (Ha : a.2 !! a.1 = Some (Point2D.add vp vq)) by apply alloc_lookup.
  assert (Hqa : a.2 !! q = Some vq) by (by apply alloc_old).
  repeat split.
  - unfold Point2DObj.add. rewrite Hp, Hq. simpl. by destruct a.
  - unfold Point2DObj.subtract. rewrite Ha, Hqa. simpl. by destruct b.
  - unfold b. rewrite alloc_lookup. f_equal. apply add_subtract_value.
  - apply alloc_fresh.
  - apply alloc_fresh.
  - by apply alloc_old.
  - by apply alloc_old, alloc_old.
  - apply add_subtract_value.
Qed.

Lemma add_subtract_inverse_witness :
  exists r h1 s h2,
    Point2DObj.add 1%positive 1%positive {[ 1%positive := Point2D.new 3 4 ]}
      = Some (r, h1) /\
    Point2DObj.subtract r 1%positive h1 = Some (s, h2) /\
    h2 !! s = Some (Point2D.new 3 4) /\
    ({[ 1%positive := Point2D.new 3 4 ]} : gmap positive Point2D.t) !! r = None /\
    h1 !! s = None /\
    (forall l w,
        ({[ 1%positive := Point2D.new 3 4 ]} : gmap positive Point2D.t) !! l = Some w ->
        h1 !! l = Some w /\ h2 !! l = Some w) /\
    Point2D.subtract (Point2D.add (Point2D.new 3 4) (Point2D.new 3 4))
      (Point2D.new 3 4) = Point2D.new 3 4.
Proof.
  apply (add_subtract_inverse {[ 1%positive := Point2D.new 3 4 ]}
           1%positive 1%positive (Point2D.new 3 4) (Point2D.new 3 4));
    reflexivity.
Defined.

(** ** The dispatch resolver *)

Lemma filter_none {A} (P : A -> Prop) `{forall x, Decision (P x)} (l : list A) :
  (forall x, x ∈ l -> ~ P x) -> filter P l = [].
Proof.
  induction l as [|x l IH]; intros Hl; [done|].
  rewrite filter_cons_False by (apply Hl; left).
  apply IH. intros y Hy. apply Hl. by right.
Qed.

Section resolver.

Context {Data : Type}.
Implicit Types (c : list Element) (a : list (arbiter.Candidate Data)).
Implicit Types (u : gmap string (arbiter.Candidate Data)).

Lemma winners_snoc c a e :
  arbiter.winners c (a ++ [e])
  = match arbiter.winners c a with
    | Ok u => arbiter.resolve c u e
    | TypeError => TypeError
    end.
Proof. unfold arbiter.winners. by rewrite foldl_app. Qed.

(** One step of the loop on a table [u] that is right for [a]. *)
Lemma resolve_spec c a u e k :
  match u !! k with
  | Some w => first_lowest_index c a k w
  | None => forall x, x ∈ a -> arbiter.kind x <> k
  end ->
  match arbiter.resolve c u e with
  | Ok u' =>
      match u' !! k with
      | Some w => first_lowest_index c (a ++ [e]) k w
      | None => forall x, x ∈ a ++ [e] -> arbiter.kind x <> k
      end
  | TypeError => True
  end.
Proof.
  intros IH. unfold arbiter.resolve.
  destruct (decide (arbiter.kind e = k)) as [Hk|Hk].
  - subst k.
    destruct (u !! arbiter.kind e) as [w|] eqn:Hw.
    + destruct IH as (Hkw & l1 & l2 & -> & H1 & H2).
      case_bool_decide as Hlt.
      * rewrite lookup_insert_eq. split; [done|].
        exists (l1 ++ w :: l2), []. split; [done|]. split.
        -- intros x Hx Hkx. fold (depth c e) in Hlt. fold (depth c w) in Hlt.
           apply elem_of_app in Hx as [Hx|Hx].
           ++ specialize (H1 x Hx Hkx). lia.
           ++ apply elem_of_cons in Hx as [->|Hx]; [done|].
              specialize (H2 x Hx Hkx). lia.
        -- intros x Hx. by apply elem_of_nil in Hx.
      * rewrite Hw. split; [done|].
        exists l1, (l2 ++ [e]). split; [by rewrite <- app_assoc|]. split; [done|].
        intros x Hx Hkx. fold (depth c e) in Hlt. fold (depth c w) in Hlt.
        apply elem_of_app in Hx as [Hx|Hx]; [by apply H2|].
        apply list_elem_of_singleton in Hx as ->. lia.
    + case_bool_decide; [done|].
      rewrite lookup_insert_eq. split; [done|].
      exists a, []. split; [done|]. split.
      * intros x Hx Hkx. by destruct (IH x Hx).
      * intros x Hx. by apply elem_of_nil in Hx.
  - assert (Hgoal : forall u', u' !! k = u !! k ->
              match u' !! k with
              | Some w => first_lowest_index c (a ++ [e]) k w
              | None => forall x, x ∈ a ++ [e] -> arbiter.kind x <> k
              end).
    { intros u' ->. destruct (u !! k) as [w|].
      - destruct IH as (Hkw & l1 & l2 & -> & H1 & H2). split; [done|].
        exists l1, (l2 ++ [e]). split; [by rewrite <- app_assoc|]. split; [done|].
        intros x Hx Hkx.
        apply elem_of_app in Hx as [Hx|Hx]; [by apply H2|].
        apply list_elem_of_singleton in Hx as ->. done.
      - intros x Hx. apply elem_of_app in Hx as [Hx|Hx]; [by apply IH|].
        apply list_elem_of_singleton in Hx as ->. done. }
    destruct (u !! arbiter.kind e) as [w|].
    + apply Hgoal. case_bool_decide; [by rewrite lookup_insert_ne|done].
    + case_bool_decide; [done|]. apply Hgoal. by rewrite lookup_insert_ne.
Qed.

(** The loop throws exactly on a candidate whose kind names an inherited
    property. *)
Lemma winners_throws c a :
  match arbiter.winners c a with
  | Ok u => (forall x, x ∈ a -> arbiter.kind x ∉ Object_prototype) /\
            (forall k w, u !! k = Some w -> arbiter.kind w = k /\ w ∈ a)
  | TypeError => exists x, x ∈ a /\ arbiter.kind x ∈ Object_prototype
  end.
Proof.
  induction a as [|e a IH] using rev_ind.
  - unfold arbiter.winners; simpl. split.
    + intros x Hx. by apply elem_of_nil in Hx.
    + intros k w Hk. by rewrite lookup_empty in Hk.
  - rewrite winners_snoc.
    destruct (arbiter.winners c a) as [u|].
    + destruct IH as [Hall Hinv]. unfold arbiter.resolve.
      destruct (u !! arbiter.kind e) as [w|] eqn:Hw.
      * split.
        -- intros x Hx. apply elem_of_app in Hx as [Hx|Hx]; [by apply Hall|].
           apply list_elem_of_singleton in Hx as ->.
           destruct (Hinv _ _ Hw) as [Hkw Hwa]. rewrite <- Hkw. by apply Hall.
        -- intros k w' Hk.
           assert (Hor : u !! k = Some w' \/ (k = arbiter.kind e /\ w' = e)).
           { case_bool_decide; [|by left].
             apply lookup_insert_Some in Hk as [[<- <-]|[_ Hk]]; [by right|by left]. }
           destruct Hor as [Hu|[-> ->]].
           ++ destruct (Hinv _ _ Hu) as [Hkw Hwa]. split; [done|].
              apply elem_of_app. by left.
           ++ split; [done|]. apply elem_of_app. right. by left.
      * case_bool_decide as Hp.
        -- exists e. split; [|done]. apply elem_of_app. right. by left.
        -- split.
           ++ intros x Hx. apply elem_of_app in Hx as [Hx|Hx]; [by apply Hall|].
              by apply list_elem_of_singleton in Hx as ->.
           ++ intros k w' Hk.
              apply lookup_insert_Some in Hk as [[<- <-]|[_ Hk]].
              ** split; [done|]. apply elem_of_app. right. by left.
              ** destruct (Hinv _ _ Hk) as [Hkw Hwa]. split; [done|].
                 apply elem_of_app. by left.
    + destruct IH as (x & Hx & Hp). exists x. split; [|done].
      apply elem_of_app. by left.
Qed.

Lemma winners_spec c a u k :
  arbiter.winners c a = Ok u ->
  match u !! k with
  | Some w => first_lowest_index c a k w
  | None => forall x, x ∈ a -> arbiter.kind x <> k
  end.
Proof.
  revert u. induction a as [|e a IH] using rev_ind; intros u.
  - unfold arbiter.winners; simpl. intros [= <-]. rewrite lookup_empty.
    intros x Hx. by apply elem_of_nil in Hx.
  - rewrite winners_snoc.
    destruct (arbiter.winners c a) as [u0|]; [|done].
    intros Hr. pose proof (resolve_spec c a u0 e k (IH u0 eq_refl)) as H.
    by rewrite Hr in H.
Qed.


Lemma winners_kind c a u k w :
  arbiter.winners c a = Ok u -> u !! k = Some w -> arbiter.kind w = k.
Proof.
  intros Hu Hw. pose proof (winners_spec c a u k Hu) as H. rewrite Hw in H. apply H.
Qed.

Lemma forwarded_of_kind c a u k :
  arbiter.winners c a = Ok u ->
  arbiter.forwarded c a = Ok (map_to_list u).*2 /\
  filter (fun x => arbiter.kind x = k) (map_to_list u).*2
  = match u !! k with Some w => [w] | None => [] end.
Proof.
  intros Hu. unfold arbiter.forwarded. rewrite Hu. split; [done|].
  assert (Hinv' : forall k' w', u !! k' = Some w' -> arbiter.kind w' = k')
    by (intros k' w'; by apply (winners_kind c a u)).
  clear Hu.
  assert (Hnone : forall u', (forall k' w', u' !! k' = Some w' -> arbiter.kind w' = k') ->
             u' !! k = None ->
             filter (fun x => arbiter.kind x = k) (map_to_list u').*2 = []).
  { intros u' Hi Hk. apply filter_none.
    intros x Hx. apply list_elem_of_fmap in Hx as [[k' w'] [-> Hx]].
    apply elem_of_map_to_list in Hx. simpl.
    intros Hkx. rewrite (Hi _ _ Hx) in Hkx. congruence. }
  destruct (u !! k) as [w|] eqn:Hk; [|by apply Hnone].
  apply Permutation_singleton_r.
  rewrite <- (insert_delete_id u k w Hk).
  rewrite map_to_list_insert by apply lookup_delete_eq.
  rewrite fmap_cons. simpl.
  rewrite filter_cons_True by (by apply Hinv').
  rewrite Hnone; [done| |apply lookup_delete_eq].
  intros k' w' Hw'. apply lookup_delete_Some in Hw' as [_ Hw']. by apply Hinv'.
Qed.

End resolver.

(** The index [getPathIndex] returns, read on the path itself. *)
Lemma getPathIndex_fold (c : list Element) (t0 : Element) (n0 : nat) :
  let step := fun '(n, r) (e0 : Element) =>
                (if bool_decide (node e0 = node t0) then r else n, S r) in
  (foldl step (n0, 0%nat) c).2 = length c /\
  ((foldl step (n0, 0%nat) c).1 = n0 /\ (forall e, e ∈ c -> node e <> node t0)
   \/ exists i e, c !! i = Some e /\ node e = node t0 /\
                  (foldl step (n0, 0%nat) c).1 = i /\
                  forall j e', (i < j)%nat -> c !! j = Some e' -> node e' <> node t0).
Proof.
  intros step. induction c as [|e c IH] using rev_ind.
  - simpl. split; [done|]. left. split; [done|]. intros e He. by apply elem_of_nil in He.
  - rewrite foldl_app. simpl.
    destruct (foldl step (n0, 0%nat) c) as [n r] eqn:Hf. simpl in IH.
    destruct IH as [Hr IH]. subst r. simpl.
    split; [rewrite length_app; simpl; lia|].
    case_bool_decide as He.
    + right. exists (length c), e. split; [by apply list_lookup_middle|].
      split; [done|]. split; [done|].
      intros j e' Hj He'. apply lookup_lt_Some in He'.
      rewrite length_app in He'. simpl in He'. lia.
    + destruct IH as [[Hn Hall]|(i & e1 & Hi & He1 & Hn & Hafter)].
      * left. split; [done|]. intros e' He'.
        apply elem_of_app in He' as [He'|He']; [by apply Hall|].
        by apply list_elem_of_singleton in He' as ->.
      * right. exists i, e1. split; [by apply lookup_app_l_Some|].
        split; [done|]. split; [done|].
        intros j e' Hj He'.
        destruct (decide (j < length c)%nat) as [Hlt|Hge].
        -- rewrite lookup_app_l in He' by done. by eapply Hafter.
        -- apply lookup_lt_Some in He' as Hlen.
           rewrite length_app in Hlen. simpl in Hlen.
           assert (j = length c) as -> by lia.
           rewrite list_lookup_middle in He' by done. by inversion He'; subst.
Qed.

Lemma getPathIndex_absent (c : list Element) (t0 : Element) :
  (forall e, e ∈ c -> node e <> node t0) -> util.getPathIndex c t0 = length c.
Proof.
  intros Hall. unfold util.getPathIndex.
  destruct (getPathIndex_fold c t0 (length c)) as [_ [[H _]|(i & e & Hi & He & _)]];
    [done|].
  exfalso. eapply Hall; [|done]. by eapply list_elem_of_lookup_2.
Qed.


(** The candidates come in the order in which their bindings were
    registered. *)
Lemma dispatcher_order {Data : Type}
      (invoke : phase -> Binding -> list Input.t
                -> outcome (option Data * list Input.t))
      (r : phase) (events : list ZingEvent.t) (e : list Binding)
      (inputs inputs' : list Input.t) (a : list (arbiter.Candidate Data)) :
  arbiter.dispatcher_each Data invoke r events e inputs = Ok (a, inputs') ->
  sublist (arbiter.binding <$> a) e.
Proof.
  revert inputs a. induction e as [|t0 e IH]; intros inputs a; simpl.
  - intros [= <- _]. constructor.
  - destruct (invoke r t0 inputs) as [[u inputs1]|]; [|done].
    destruct (arbiter.dispatcher_each Data invoke r events e inputs1)
      as [[acc inputs2]|] eqn:Hrest; [|done].
    intros [= <- <-]. specialize (IH _ _ Hrest).
    destruct u as [d|]; simpl.
    + by apply sublist_skip.
    + by apply sublist_cons.
Qed.








(** On the nested regions the inner binding alone is forwarded, although
    the outer one was registered first. *)
Example nested_forwards_inner :
  arbiter.forwarded Nested.path Nested.candidates
  = Ok [Nested.candidate Nested.inner 2].
Proof. vm_compute. reflexivity. Qed.

(** A candidate whose gesture id names an inherited property makes the
    resolver throw, and it is the only way it throws. *)
Lemma forwarded_throws_iff {Data : Type} (c : list Element)
      (a : list (arbiter.Candidate Data)) :
  arbiter.forwarded c a = TypeError <->
  exists x, x ∈ a /\ arbiter.kind x ∈ Object_prototype.
Proof.
  unfold arbiter.forwarded. pose proof (winners_throws c a) as H.
  destruct (arbiter.winners c a) as [u|].
  - split; [done|]. intros (x & Hx & Hp). destruct H as [Hall _].
    by destruct (Hall x Hx).
  - by split.
Qed.

(** ** Input lifecycle *)

Lemma array_get_set_eq {A} (a : list (option A)) (i : nat) (v : A) :
  array_get (array_set a i v) i = Some v.
Proof.
  unfold array_get, array_set. case_bool_decide as Hi.
  - by rewrite list_lookup_insert_eq.
  - rewrite lookup_app_r by lia. rewrite lookup_app_r; rewrite length_replicate; [|lia].
    by replace (i - length a - (i - length a))%nat with 0%nat by lia.
Qed.

Lemma array_get_set_ne {A} (a : list (option A)) (i j : nat) (v : A) :
  i <> j -> array_get (array_set a i v) j = array_get a j.
Proof.
  intros Hij. unfold array_get, array_set. case_bool_decide as Hi.
  - by rewrite list_lookup_insert_ne.
  - destruct (decide (j < length a)%nat) as [Hj|Hj].
    + by rewrite lookup_app_l.
    + rewrite (lookup_ge_None_2 a j) by lia.
      rewrite lookup_app_r by lia.
      destruct (decide (j - length a < i - length a)%nat) as [Hlt|Hge].
      * rewrite lookup_app_l by (by rewrite length_replicate).
        by rewrite lookup_replicate_2.
      * rewrite lookup_app_r by (rewrite length_replicate; lia).
        rewrite length_replicate.
        destruct (j - length a - (i - length a))%nat as [|m] eqn:Hm; [lia|done].
Qed.

Lemma findIndex_Some (e : list Input.t) (t0 k : nat) :
  BundleState.findIndex e t0 = Some k ->
  exists o, e !! k = Some o /\ Input.identifier o = t0.
Proof.
  revert k. induction e as [|e0 e IH]; intros k; simpl; [done|].
  case_bool_decide as Hid.
  - intros [= <-]. by exists e0.
  - destruct (BundleState.findIndex e t0) as [k'|]; simpl; [|done].
    intros [= <-]. by apply IH.
Qed.

Lemma findIndex_None (e : list Input.t) (t0 : nat) :
  BundleState.findIndex e t0 = None <->
  forall o, o ∈ e -> Input.identifier o <> t0.
Proof.
  induction e as [|e0 e IH]; simpl.
  - split; [|done]. intros _ o Ho. by apply elem_of_nil in Ho.
  - case_bool_decide as Hid.
    + split; [done|]. intros H. exfalso. apply (H e0); [left|done].
    + destruct (BundleState.findIndex e t0) as [k|]; simpl.
      * split; [done|]. intros H.
        assert (Hn : Some k = None); [|done].
        apply IH. intros o Ho. apply H. by right.
      * split; [|done]. intros _ o Ho.
        apply elem_of_cons in Ho as [->|Ho]; [done|]. by apply IH.
Qed.

Lemma find_None (e : list Input.t) (t0 : nat) :
  BundleState.find e t0 = None <-> BundleState.findIndex e t0 = None.
Proof.
  unfold BundleState.find.
  destruct (BundleState.findIndex e t0) as [k|] eqn:Hk; simpl; [|done].
  apply findIndex_Some in Hk as (o & -> & _). done.
Qed.

Lemma find_Some (e : list Input.t) (t0 : nat) (o : Input.t) :
  BundleState.find e t0 = Some o ->
  exists k, BundleState.findIndex e t0 = Some k /\ e !! k = Some o.
Proof.
  unfold BundleState.find.
  destruct (BundleState.findIndex e t0) as [k|]; simpl; [|done].
  intros Ho. by exists k.
Qed.

(** Comparisons of numerals. *)
Ltac num_decide :=
  unfold JS.truthy in *; unfold JS.lt, JS.le, JS.gt, JS.ge, JS.eqb in *;
  repeat (match goal with
          | |- context [bool_decide ?P] =>
              first [ rewrite (bool_decide_eq_true_2 P) by lra
                    | rewrite (bool_decide_eq_false_2 P) by lra ]
          end; simpl).

Lemma isInside_region_5_5 : util.isInside 5 5 Mouse.region = true.
Proof. unfold util.isInside; simpl. by num_decide. Qed.

Lemma touches_reached :
  exists s1 s2,
    BundleState.updateInputs Touches.e1 Mouse.region [] = Ok s1 /\
    BundleState.updateInputs Touches.e2 Mouse.region s1 = Ok s2 /\
    BundleState.updateInputs Touches.e3 Mouse.region s2 = Ok [Touches.A; Touches.B].
Proof.
  eexists _, _. split; [reflexivity|]. split; [reflexivity|].
  unfold BundleState.updateInputs; simpl.
  unfold BundleState.update; simpl.
  rewrite isInside_region_5_5. reflexivity.
Qed.

Example touches_A'_ended :
  State.phase_of _ Mouse.wrap_type Touches.A' = Some PEnd.
Proof. reflexivity. Qed.

(** In the bundled build a Start for the identifier of an ended input that
    is still tracked (touch 1 is down) empties the input set: no input is
    created for the identifier. *)
Lemma bundle_start_on_ended_input_resets :
  BundleState.find [Touches.A; Touches.B] 0 = Some Touches.A /\
  Input.getCurrentEventType Touches.A = Some PEnd /\
  util.normalizeEvent (ev_type Touches.e4) = Some PStart /\
  BundleState.updateInputs Touches.e4 Mouse.region [Touches.A; Touches.B] = Ok [] /\
  ~ (exists inputs o,
        BundleState.updateInputs Touches.e4 Mouse.region [Touches.A; Touches.B]
          = Ok inputs /\
        BundleState.find inputs 0 = Some o).
Proof.
  assert (H : BundleState.updateInputs Touches.e4 Mouse.region [Touches.A; Touches.B]
              = Ok []) by reflexivity.
  repeat split; try reflexivity.
  intros (inputs & o & Hu & Ho). rewrite H in Hu. inversion Hu; subst. done.
Qed.

(** C7, as the two code bases have it.  A Start event for an unseen
    identifier creates a fresh input for it, whose initial, current and
    previous events are the new event: [State.updateInput] stores it in the
    slot of the identifier, the bundled [update] appends it.  For an
    identifier that already has an input (ended or not),
    [State.updateInput] replaces that input by such a fresh one and leaves
    the other slots alone, whereas the bundled [update] empties the input
    set and creates nothing. *)
Theorem start_creates_fresh_input :
  (forall (ZE : Type) (newZingEvent : Event -> option nat -> ZE)
          (normalizeEvent : string -> option phase)
          (event : Event) (identifier : nat) (inputs : list (option (State.Input ZE))),
      normalizeEvent (ev_type event) = Some PStart ->
      let inputs' := State.updateInput ZE newZingEvent normalizeEvent
                                       event identifier inputs in
      let z := newZingEvent event (Some identifier) in
      array_get inputs' identifier
        = Some (State.mkInput ZE z z z identifier ∅) /\
      forall j, j <> identifier -> array_get inputs' j = array_get inputs j) /\
  (forall (e : Event) (inputs : list Input.t) (n : nat) (r : Element),
      util.normalizeEvent (ev_type e) = Some PStart ->
      (forall z, BundleState.find inputs n = None ->
                 ZingEvent.new e n = Ok z ->
                 BundleState.update e inputs n r
                   = Ok (inputs ++ [Input.mk z z z n ∅])) /\
      (forall o, BundleState.find inputs n = Some o ->
                 BundleState.update e inputs n r = Ok [])).
Proof.
  split.
  - intros ZE newZE norm event identifier inputs Hstart inputs' z.
    unfold inputs', State.updateInput. rewrite Hstart.
    rewrite bool_decide_eq_true_2 by done. split.
    + apply array_get_set_eq.
    + intros j Hj. by apply array_get_set_ne.
  - intros e inputs n r Hstart. split.
    + intros z Hnone Hz. apply find_None in Hnone.
      unfold BundleState.update. rewrite Hnone; simpl.
      rewrite Hstart, bool_decide_eq_true_2 by done.
      unfold Input.new. by rewrite Hz.
    + intros o Ho. apply find_Some in Ho as (k & Hk & Ho).
      unfold BundleState.update. rewrite Hk; simpl. rewrite Ho; simpl.
      rewrite Hstart. by rewrite bool_decide_eq_true_2.
Qed.

Lemma start_creates_fresh_input_witness :
  (let inputs' := State.updateInput (Event * option nat) Mouse.wrap util.normalizeEvent
                                    Touches.e4 0 [Some Touches.A'; Some Touches.B'] in
   let z := Mouse.wrap Touches.e4 (Some 0%nat) in
   array_get inputs' 0 = Some (State.mkInput _ z z z 0 ∅) /\
   forall j, j <> 0%nat ->
             array_get inputs' j = array_get [Some Touches.A'; Some Touches.B'] j) /\
  BundleState.update Touches.e1 [] 0 Mouse.region
    = Ok ([] ++ [Input.mk (Touches.zing Touches.e1 5 5) (Touches.zing Touches.e1 5 5)
                          (Touches.zing Touches.e1 5 5) 0 ∅]) /\
  BundleState.update Touches.e4 [Touches.A; Touches.B] 0 Mouse.region = Ok [].
Proof.
  destruct start_creates_fresh_input as [H1 H2].
  split; [|split].
  - apply (H1 (Event * option nat)%type Mouse.wrap util.normalizeEvent Touches.e4 0%nat
              [Some Touches.A'; Some Touches.B']).
    reflexivity.
  - apply (H2 Touches.e1 [] 0%nat Mouse.region); reflexivity.
  - apply (H2 Touches.e4 [Touches.A; Touches.B] 0%nat Mouse.region eq_refl) with Touches.A.
    reflexivity.
Defined.

(** In [State.js] a Move for an identifier without an input leaves the
    input set as it is: the inputs of the other contacts stay tracked. *)
Lemma state_move_untracked_keeps_inputs :
  array_get [Some Touches.A'; Some Touches.B'] 2 = None /\
  util.normalizeEvent (ev_type Touches.e5) = Some PMove /\
  State.updateInput (Event * option nat) Mouse.wrap util.normalizeEvent
                    Touches.e5 2 [Some Touches.A'; Some Touches.B']
    = [Some Touches.A'; Some Touches.B'] /\
  State.updateInput (Event * option nat) Mouse.wrap util.normalizeEvent
                    Touches.e5 2 [Some Touches.A'; Some Touches.B']
    <> State.resetInputs (Event * option nat).
Proof. repeat split; try reflexivity. discriminate. Qed.

(** C8, as the two code bases have it.  A Move or End event for an
    identifier without an input neither updates nor creates an input, and
    no error is raised: the bundled [update] empties the input set,
    [State.updateInput] returns the input set unchanged. *)
Theorem untracked_move_or_end :
  (forall (e : Event) (inputs : list Input.t) (n : nat) (r : Element),
      util.normalizeEvent (ev_type e) <> Some PStart ->
      BundleState.find inputs n = None ->
      BundleState.update e inputs n r = Ok BundleState.resetInputs) /\
  (forall (ZE : Type) (newZingEvent : Event -> option nat -> ZE)
          (normalizeEvent : string -> option phase)
          (event : Event) (identifier : nat) (inputs : list (option (State.Input ZE))),
      normalizeEvent (ev_type event) <> Some PStart ->
      array_get inputs identifier = None ->
      State.updateInput ZE newZingEvent normalizeEvent event identifier inputs
        = inputs).
Proof.
  split.
  - intros e inputs n r Hns Hnone. apply find_None in Hnone.
    unfold BundleState.update. rewrite Hnone; simpl.
    by rewrite bool_decide_eq_false_2.
  - intros ZE newZE norm event identifier inputs Hns Hnone.
    unfold State.updateInput. rewrite bool_decide_eq_false_2 by done.
    by rewrite Hnone.
Qed.

Lemma untracked_move_or_end_witness :
  BundleState.update Touches.e5 [Touches.A; Touches.B] 2 Mouse.region
    = Ok BundleState.resetInputs /\
  State.updateInput (Event * option nat) Mouse.wrap util.normalizeEvent
                    Touches.e5 2 [Some Touches.A'; Some Touches.B']
    = [Some Touches.A'; Some Touches.B'].
Proof.
  destruct untracked_move_or_end as [H1 H2]. split.
  - apply (H1 Touches.e5 [Touches.A; Touches.B] 2%nat Mouse.region);
      [discriminate | reflexivity].
  - apply (H2 (Event * option nat)%type Mouse.wrap util.normalizeEvent Touches.e5 2%nat
              [Some Touches.A'; Some Touches.B']);
      [discriminate | reflexivity].
Defined.

(** ** Pan *)

Lemma round_IZR (z : Z) : JS.round (IZR z) = IZR z.
Proof. unfold JS.round. f_equal. apply Zfloor_eq. lra. Qed.

Lemma distance_exact (e t0 n r d : R) (z : Z) :
  0 <= d -> (t0 - e) * (t0 - e) + (r - n) * (r - n) = d * d -> 100 * d = IZR z ->
  util.distanceBetweenTwoPoints e t0 n r = d.
Proof.
  intros Hd Hsq Hz. unfold util.distanceBetweenTwoPoints.
  rewrite Hsq, sqrt_square by done. rewrite Hz, round_IZR, <- Hz. lra.
Qed.

Lemma drag_reached (x0 y0 x1 y1 : R) (pan : Pan.t) :
  Pan.key pan = "pan" ->
  Input.new (Mouse.event "mousedown" x0 y0) 0 = Ok (Drag.pressed x0 y0) /\
  Pan.start pan [Drag.pressed x0 y0] = [Drag.started x0 y0] /\
  Input.update (Drag.started x0 y0) (Mouse.event "mousemove" x1 y1) 0
    = Ok (Drag.moved x0 y0 x1 y1).
Proof.
  intros Hk. split; [reflexivity|]. split; [|reflexivity].
  unfold Pan.start. simpl. rewrite Hk. reflexivity.
Qed.

(** What [move] does for one input: an entry is written exactly when the
    input is active and the tested distance reaches the threshold, its
    change is the current position minus [lastEmitted], and [lastEmitted]
    becomes the current position. *)
Lemma pan_move_single (this : Pan.t) (e0 : Input.t) (last : R * R) :
  Pan.numInputs this = 1%nat ->
  Progress.lastEmitted (Input.getGestureProgress e0 (Pan.key this)) = Some last ->
  let cur := Input.current e0 in
  let n := Input.getGestureProgress e0 (Pan.key this) in
  Pan.move this [e0]
  = (if default false (Progress.active n)
        && JS.ge (util.distanceBetweenTwoPoints last.1 last.2
                    (ZingEvent.x cur) (ZingEvent.y cur)) (Pan.threshold this)
     then Ok (Some [Some (Pan.packData e0 last)],
              [Input.setGestureProgress e0 (Pan.key this)
                 (Progress.set_lastEmitted (ZingEvent.x cur, ZingEvent.y cur) n)])
     else Ok (Some [], [e0])) /\
  Pan.change (Pan.packData e0 last)
  = (ZingEvent.x cur - last.1, ZingEvent.y cur - last.2).
Proof.
  intros Hn Hlast cur n. split; [|reflexivity].
  unfold Pan.move. rewrite Hn. simpl. rewrite Hlast.
  by destruct (default false _ && _).
Qed.

(** C2, on the code: [move] tests the threshold on
    [distanceBetweenTwoPoints (lastEmitted.x, lastEmitted.y, current.x,
    current.y)], whose parameters are [(x0, x1, y0, y1)].  With the default
    threshold 1, a press at (0, 0) moved to (5, 5) gives an empty [data]
    and leaves [lastEmitted] alone; with threshold 2, a press at (0, 3)
    moved to (0, 4), a displacement of 1, gives an entry with change
    (0, 1). *)
Theorem pan_move_threshold_on_mixed_coordinates :
  Pan.move (Pan.new None) [Drag.moved 0 0 5 5]
    = Ok (Some [], [Drag.moved 0 0 5 5]) /\
  exists d,
    Pan.move (Pan.new (Some {| Pan.opt_numInputs := None; Pan.opt_threshold := Some 2 |}))
             [Drag.moved 0 3 0 4]
      = Ok (Some [Some d], [Drag.emitted 0 3 0 4]) /\
    Pan.change d = (0 - 0, 4 - 3).
Proof.
  split.
  - unfold Pan.move, Pan.new; simpl.
    unfold Input.getGestureProgress, Pan.key; simpl.
    rewrite lookup_singleton_eq; simpl.
    rewrite (distance_exact 0 0 5 5 0 0) by lra.
    unfold Pan.DEFAULT_MIN_THRESHOLD. by num_decide.
  - eexists. split.
    + unfold Pan.move, Pan.new; simpl.
      unfold Input.getGestureProgress, Pan.key; simpl.
      rewrite lookup_singleton_eq; simpl.
      rewrite (distance_exact 0 3 0 4 5 500) by lra.
      num_decide. simpl.
      unfold Input.setGestureProgress, Drag.emitted; simpl.
      rewrite insert_singleton_eq. reflexivity.
    + reflexivity.
Qed.

(** ** Swipe *)

Lemma swipe_move_one_samples (this : Swipe.t) (t0 : number) (e0 : Input.t) :
  Fingers.samples this (Swipe.move_one this t0 e0)
  = Fingers.samples this e0
      ++ [ {| time := t0; sx := ZingEvent.x (Input.current e0);
              sy := ZingEvent.y (Input.current e0) |} ].
Proof.
  unfold Fingers.samples, Swipe.move_one, Input.getGestureProgress,
    Input.setGestureProgress; simpl.
  by rewrite lookup_insert_eq.
Qed.

Lemma swipe_move_length (this : Swipe.t) (now : nat -> number) (e : list Input.t) :
  length (Swipe.move this now e) = length e.
Proof. unfold Swipe.move. case_bool_decide; [apply length_imap|done]. Qed.

(** Every [Swipe.move] with the configured number of inputs adds one
    sample to each input and removes none. *)
Lemma swipe_moves_grow (this : Swipe.t) (now : nat -> nat -> number) (k : nat)
      (e : list Input.t) (j : nat) (e0 : Input.t) :
  Swipe.numInputs this = length e ->
  e !! j = Some e0 ->
  exists e1, Fingers.moves this now k e !! j = Some e1 /\
             length (Fingers.samples this e1)
             = (length (Fingers.samples this e0) + k)%nat.
Proof.
  intros Hn Hj. induction k as [|k IH]; simpl.
  - exists e0. split; [done|lia].
  - destruct IH as (e1 & He1 & Hlen).
    assert (Hk : length (Fingers.moves this now k e) = length e).
    { clear. induction k; simpl; [done|]. by rewrite swipe_move_length. }
    unfold Swipe.move. rewrite bool_decide_eq_true_2 by congruence.
    exists (Swipe.move_one this (now k j) e1). split.
    + by rewrite list_lookup_imap, He1.
    + rewrite swipe_move_one_samples, length_app. simpl. lia.
Qed.

(** C9, on the code: the test before [shift] reads [length] on the scratch
    object, not on [moves], so nothing is ever shifted out.  With the
    default [maxProgressStack] of 10, eleven move updates leave eleven
    samples on the input. *)
Theorem swipe_buffer_exceeds_maxProgressStack (now : nat -> nat -> number) :
  Swipe.maxProgressStack (Swipe.new None None None None None) = 10 /\
  exists e1,
    Fingers.moves (Swipe.new None None None None None) now 11 [Drag.pressed 0 0]
      = [e1] /\
    length (Fingers.samples (Swipe.new None None None None None) e1) = 11%nat.
Proof.
  split; [reflexivity|].
  destruct (swipe_moves_grow (Swipe.new None None None None None) now 11
              [Drag.pressed 0 0] 0 (Drag.pressed 0 0)) as (e1 & He1 & Hlen);
    [reflexivity..|].
  exists e1. split; [|exact Hlen].
  assert (Hk : forall k e, length (Fingers.moves (Swipe.new None None None None None)
                                               now k e) = length e).
  { clear. induction k; intros e; simpl; [done|]. by rewrite swipe_move_length. }
  specialize (Hk 11%nat [Drag.pressed 0 0]).
  destruct (Fingers.moves _ now 11 [Drag.pressed 0 0]) as [|a [|b l]];
    simpl in *; try discriminate.
  by inversion He1.
Qed.

Ltac swipe_end_eval :=
  unfold Swipe.end_, Fingers.two, Swipe.new; simpl;
  unfold Input.getGestureProgress, Swipe.key; simpl;
  rewrite !lookup_singleton_eq; simpl;
  unfold Swipe.lastDistinct; simpl;
  unfold Swipe.maxRestTime, Swipe.DEFAULT_MAX_REST_TIME;
  num_decide;
  unfold util.getVelocity;
  rewrite (distance_exact 0 1 0 0 1 100) by lra;
  rewrite (distance_exact 100 200 50 50 100 10000) by lra;
  unfold Swipe.escapes, Swipe.escapeVelocity, Swipe.DEFAULT_ESCAPE_VELOCITY; simpl;
  num_decide.

(** C3, on the code: the second loop of [end] compares the one variable
    [velocity], which holds the velocity of the last input the first loop
    computed one for.  In a two-input swipe with the default
    [escapeVelocity] of 0.2, a finger at velocity 0.1 followed by a finger
    at velocity 10 is emitted with both entries; the same two fingers in
    the other order are rejected. *)
Theorem swipe_end_compares_last_velocity_only :
  Swipe.escapeVelocity Fingers.two = 2 / 10 /\
  (exists d0 d1 e',
      Swipe.end_ Fingers.two (fun _ => 20) [Fingers.slow; Fingers.fast]
        = (Swipe.Data [Some d0; Some d1], e') /\
      Swipe.velocity d0 = 1 / 10 /\ Swipe.velocity d1 = 10) /\
  (exists e',
      Swipe.end_ Fingers.two (fun _ => 20) [Fingers.fast; Fingers.slow]
        = (Swipe.Null, e')).
Proof.
  split; [reflexivity|]. split.
  - eexists _, _, _. swipe_end_eval.
    split; [reflexivity|]. simpl. split; lra.
  - eexists. swipe_end_eval. reflexivity.
Qed.

(** ** Tap *)

Lemma foldr_Rmin_acc (s t0 : R) (l : list R) :
  foldr Rmin (Rmin s t0) l = Rmin s (foldr Rmin t0 l).
Proof.
  induction l as [|x l IH]; simpl; [done|].
  rewrite IH. rewrite !Rmin_assoc. f_equal. apply Rmin_comm.
Qed.

Lemma lt_Rmin (s t0 : R) : (if JS.lt s t0 then s else t0) = Rmin s t0.
Proof.
  unfold JS.lt, Rmin. case_bool_decide; destruct (Rle_dec s t0); lra.
Qed.

Lemma earliest_complete (this : Tap.t) (e : list Input.t) (t0 : R) :
  Forall (tap_ended_stamped this) e ->
  Tap.earliest this e t0 = Some (foldr Rmin t0 (omap (tap_stamp this) e)).
Proof.
  revert t0. induction e as [|e0 e IH]; intros t0 Hall; simpl; [done|].
  apply Forall_cons in Hall as [(Hend & s & Hs & Hs0) Hall].
  rewrite bool_decide_eq_false_2 by (by rewrite Hend; intros []).
  unfold tap_stamp in Hs. rewrite Hs.
  unfold JS.truthy, JS.eqb. rewrite bool_decide_eq_false_2 by done. simpl.
  rewrite IH by done. unfold tap_stamp at 2. rewrite Hs. simpl.
  by rewrite lt_Rmin, foldr_Rmin_acc.
Qed.

Lemma earliest_Some (this : Tap.t) (e : list Input.t) (t0 t1 : R) :
  Tap.earliest this e t0 = Some t1 -> Forall (tap_ended_stamped this) e.
Proof.
  revert t0. induction e as [|e0 e IH]; intros t0; simpl; [by constructor|].
  case_bool_decide as Hend; [done|].
  destruct (Progress.start (Input.getGestureProgress e0 (Tap.key this)))
    as [s|] eqn:Hs; [|done].
  destruct (JS.truthy s) eqn:Hts; [|done].
  intros He. constructor; [|by eapply IH].
  split.
  - exact Hend.
  - exists s. split; [done|].
    unfold JS.truthy, JS.eqb in Hts. apply negb_true_iff in Hts.
    by apply bool_decide_eq_false in Hts.
Qed.

Lemma tap_reset_clean (this : Tap.t) (e0 : Input.t) :
  Input.getGestureProgress (Input.resetProgress e0 (Tap.key this)) (Tap.key this)
  = Progress.empty.
Proof.
  unfold Input.getGestureProgress, Input.resetProgress, Input.setGestureProgress.
  simpl. by rewrite lookup_insert_eq.
Qed.

(** A two-finger tap whose first finger lifts while the second is down:
    nothing is emitted and the scratch state is kept as it is, stamps
    included. *)
Lemma tap_end_waits_without_reset :
  Tap.end_ Taps.two 150 [Taps.lifted; Taps.down] = (None, [Taps.lifted; Taps.down]) /\
  tap_stamp Taps.two Taps.lifted = Some 100 /\
  (Tap.end_ Taps.two 150 [Taps.lifted; Taps.down]).2
  <> (fun e0 => Input.resetProgress e0 (Tap.key Taps.two)) <$> [Taps.lifted; Taps.down].
Proof.
  assert (H : Tap.end_ Taps.two 150 [Taps.lifted; Taps.down]
              = (None, [Taps.lifted; Taps.down])).
  { unfold Tap.end_; simpl.
    unfold Input.getGestureProgress; simpl. rewrite lookup_singleton_eq; simpl.
    num_decide. reflexivity. }
  split; [exact H|]. split; [reflexivity|].
  rewrite H. simpl. intros Heq.
  assert (Hs : tap_stamp Taps.two Taps.lifted = tap_stamp Taps.two
                 (Input.resetProgress Taps.lifted (Tap.key Taps.two))).
  { by inversion Heq as [[Heq1 Heq2]]; rewrite <- Heq1. }
  unfold tap_stamp in Hs. rewrite tap_reset_clean in Hs. done.
Qed.

Lemma movedTooFar_spec (this : Tap.t) (e0 : Input.t) :
  Tap.movedTooFar this e0 = true <-> tap_stepped_beyond this e0.
Proof.
  unfold Tap.movedTooFar, tap_stepped_beyond, util.isWithin, JS.le.
  rewrite andb_true_iff, bool_decide_eq_true, negb_true_iff, andb_false_iff,
    !bool_decide_eq_false.
  split; intros [Hm Hd]; (split; [done|]); destruct Hd as [Hd|Hd]; (right + left); lra.
Qed.

Lemma tap_move_cases (this : Tap.t) (e : list Input.t) :
  existsb (Tap.movedTooFar this) e = true <-> Exists (tap_stepped_beyond this) e.
Proof.
  induction e as [|e0 e IH]; simpl.
  - split; [done|]. intros H. by apply Exists_nil in H.
  - rewrite orb_true_iff, Exists_cons, IH, movedTooFar_spec. done.
Qed.

Lemma tap_move_resets (this : Tap.t) (now : number) (e : list Input.t) :
  Exists (tap_stepped_beyond this) e ->
  Tap.move this e = (fun e0 => Input.resetProgress e0 (Tap.key this)) <$> e /\
  Forall (fun e0 => tap_stamp this e0 = None) (Tap.move this e) /\
  (Tap.end_ this now (Tap.move this e)).1 = None.
Proof.
  intros Hex. apply tap_move_cases in Hex as Hb.
  unfold Tap.move. rewrite Hb. split; [done|]. split.
  - apply Forall_fmap, Forall_forall. intros e0 _. simpl.
    unfold tap_stamp. by rewrite tap_reset_clean.
  - unfold Tap.end_. case_bool_decide; [done|].
    destruct e as [|e0 e]; [by apply Exists_nil in Hex|]. simpl.
    case_bool_decide; [done|]. by rewrite tap_reset_clean.
Qed.

Lemma tap_move_keeps (this : Tap.t) (e : list Input.t) :
  ~ Exists (tap_stepped_beyond this) e -> Tap.move this e = e.
Proof.
  intros Hn. unfold Tap.move.
  destruct (existsb (Tap.movedTooFar this) e) eqn:Hb; [|done].
  by apply tap_move_cases in Hb.
Qed.

Lemma tap_stamp_written (this : Tap.t) (v : number) (e0 : Input.t) :
  tap_stamp this
    (Input.setGestureProgress e0 (Tap.key this)
       (Progress.set_start v (Input.getGestureProgress e0 (Tap.key this))))
  = Some v.
Proof.
  unfold tap_stamp, Input.getGestureProgress at 1, Input.setGestureProgress.
  simpl. by rewrite lookup_insert_eq.
Qed.

Lemma tap_start_stamps (this : Tap.t) (clock : nat -> number) (e : list Input.t) :
  length e = Tap.numInputs this ->
  length (Tap.start this clock e) = length e /\
  forall k e0, e !! k = Some e0 ->
    exists e1, Tap.start this clock e !! k = Some e1 /\
      tap_stamp this e1 = Some (clock k) /\
      Input.initial e1 = Input.initial e0 /\
      Input.current e1 = Input.current e0 /\
      Input.previous e1 = Input.previous e0 /\
      Input.identifier e1 = Input.identifier e0.
Proof.
  intros Hl. unfold Tap.start. rewrite bool_decide_eq_true_2 by done.
  split; [apply length_imap|].
  intros k e0 Hk. eexists. rewrite list_lookup_imap, Hk. simpl.
  split; [reflexivity|]. split; [apply tap_stamp_written|done].
Qed.

Lemma omap_cons_Some {A B} (f : A -> option B) (x : A) (y : B) (l : list A) :
  f x = Some y -> omap f (x :: l) = y :: omap f l.
Proof. intros H. simpl. by rewrite H. Qed.

Lemma tap_stamps_then_end (this : Tap.t) (clock : nat -> number)
      (e e' : list Input.t) :
  (forall k, clock k <> 0) ->
  Forall2 tap_ended_after
    (imap (fun k e0 =>
             Input.setGestureProgress e0 (Tap.key this)
               (Progress.set_start (clock k)
                  (Input.getGestureProgress e0 (Tap.key this)))) e) e' ->
  Forall (tap_ended_stamped this) e' /\
  omap (tap_stamp this) e' = clock <$> seq 0 (length e).
Proof.
  revert clock e'. induction e as [|e0 e IH]; intros clock e' Hclock H.
  - apply Forall2_nil_inv_l in H as ->. by split.
  - rewrite imap_cons in H.
    apply Forall2_cons_inv_l in H as (e2 & e'' & [Hp Hend] & Hrest & ->).
    destruct (IH (clock ∘ S) e'') as [Hall Hstamps];
      [intros k; apply Hclock|exact Hrest|].
    assert (Hs : tap_stamp this e2 = Some (clock 0%nat)).
    { rewrite <- (tap_stamp_written this (clock 0%nat) e0).
      unfold tap_stamp, Input.getGestureProgress. by rewrite Hp. }
    split.
    + constructor; [|done]. split; [done|]. exists (clock 0%nat). by split.
    + rewrite (omap_cons_Some _ _ _ _ Hs), Hstamps. simpl. f_equal.
      by rewrite <- fmap_S_seq, <- list_fmap_compose.
Qed.

(** C4, as the code has it.  [Tap.start] writes the reading of the clock
    as the start stamp of every input when the input count is [numInputs],
    and nothing otherwise; it leaves the events of the inputs alone.  A
    move update in which a moving input stepped further than [tolerance]
    on an axis since its previous sample clears the scratch state, stamp
    included, of every input, after which an end update emits nothing; a
    move update without such a step changes nothing.  On an end update Tap
    emits [{interval}] exactly when all [numInputs] inputs have ended and
    still hold their start stamp, and the time elapsed since the earliest
    stamp lies within [minDelay, maxDelay]; that elapsed time is the
    interval, and the inputs are left as they are.  When the inputs are
    complete but the elapsed time is outside the window, nothing is
    emitted and the scratch state of every input is reset to the empty
    one.  When the inputs are not complete (another count, an input that
    has not ended, a missing stamp) nothing is emitted and the inputs are
    left as they are.  For inputs stamped by [Tap.start] that have all
    ended with their scratch state kept, the interval is the time elapsed
    since the earliest reading of the clock at the start. *)
Theorem tap_end_emits_iff (this : Tap.t) (clock : nat -> number) (now : number)
        (e : list Input.t) :
  (forall i, (Tap.end_ this now e).1 = Some i <->
             tap_complete this e /\
             tap_in_window this (tap_interval this now e) /\
             i = tap_interval this now e) /\
  (is_Some (Tap.end_ this now e).1 -> (Tap.end_ this now e).2 = e) /\
  (tap_complete this e -> ~ tap_in_window this (tap_interval this now e) ->
   Tap.end_ this now e
     = (None, (fun e0 => Input.resetProgress e0 (Tap.key this)) <$> e) /\
   Forall (fun e0 => Input.getGestureProgress e0 (Tap.key this) = Progress.empty)
          (Tap.end_ this now e).2) /\
  (~ tap_complete this e -> Tap.end_ this now e = (None, e)) /\
  (Exists (tap_stepped_beyond this) e ->
   Tap.move this e = (fun e0 => Input.resetProgress e0 (Tap.key this)) <$> e /\
   Forall (fun e0 => tap_stamp this e0 = None) (Tap.move this e) /\
   (Tap.end_ this now (Tap.move this e)).1 = None) /\
  (~ Exists (tap_stepped_beyond this) e -> Tap.move this e = e) /\
  (length e = Tap.numInputs this ->
   length (Tap.start this clock e) = length e /\
   forall k e0, e !! k = Some e0 ->
     exists e1, Tap.start this clock e !! k = Some e1 /\
       tap_stamp this e1 = Some (clock k) /\
       Input.initial e1 = Input.initial e0 /\
       Input.current e1 = Input.current e0 /\
       Input.previous e1 = Input.previous e0 /\
       Input.identifier e1 = Input.identifier e0) /\
  (length e <> Tap.numInputs this -> Tap.start this clock e = e) /\
  (length e = Tap.numInputs this -> (forall k, clock k <> 0) ->
   forall e', Forall2 tap_ended_after (Tap.start this clock e) e' ->
     tap_complete this e' /\
     tap_interval this now e'
     = now - foldr Rmin MAX_VALUE (clock <$> seq 0 (length e))).
Proof.
  assert (Hwin : forall i, JS.le (Tap.minDelay this) i && JS.ge (Tap.maxDelay this) i = true
                           <-> tap_in_window this i).
  { intros i. unfold JS.le, JS.ge, tap_in_window.
    rewrite andb_true_iff, !bool_decide_eq_true. tauto. }
  assert (Hcases :
    (tap_complete this e /\
     Tap.earliest this e MAX_VALUE
       = Some (foldr Rmin MAX_VALUE (omap (tap_stamp this) e)) /\
     length e = Tap.numInputs this) \/
    (~ tap_complete this e /\ Tap.end_ this now e = (None, e))).
  { unfold Tap.end_. case_bool_decide as Hlen.
    - right. split; [|done]. by intros [Hl _].
    - rename Hlen into Hl.
      destruct (Tap.earliest this e MAX_VALUE) as [t1|] eqn:He.
      + left. apply earliest_Some in He as Hall.
        rewrite (earliest_complete _ _ _ Hall) in He. inversion He; subst.
        repeat split; try done.
      + right. split; [|done]. intros [_ Hall].
        by rewrite (earliest_complete _ _ _ Hall) in He. }
  assert (Hend : tap_complete this e ->
                 Tap.end_ this now e
                 = if JS.le (Tap.minDelay this) (tap_interval this now e)
                      && JS.ge (Tap.maxDelay this) (tap_interval this now e)
                   then (Some (tap_interval this now e), e)
                   else (None, (fun e0 => Input.resetProgress e0 (Tap.key this)) <$> e)).
  { intros Hc. destruct Hcases as [(_ & He & Hl)|[Hn _]]; [|done].
    unfold Tap.end_. rewrite bool_decide_eq_false_2 by (by intros Hne; apply Hne).
    by rewrite He. }
  split; [|split; [|split; [|split; [|split; [|split; [|split; [|split]]]]]]].
  - intros i. split.
    + intros Hi. destruct Hcases as [(Hc & _)|[_ Hn]]; [|by rewrite Hn in Hi].
      rewrite (Hend Hc) in Hi.
      destruct (JS.le _ _ && JS.ge _ _) eqn:Hw; [|done].
      apply Hwin in Hw. simpl in Hi. by inversion Hi.
    + intros (Hc & Hw & ->). rewrite (Hend Hc).
      apply Hwin in Hw. by rewrite Hw.
  - intros [i Hi]. destruct Hcases as [(Hc & _)|[_ Hn]]; [|by rewrite Hn].
    rewrite (Hend Hc) in *.
    by destruct (JS.le _ _ && JS.ge _ _).
  - intros Hc Hnw. rewrite (Hend Hc).
    destruct (JS.le _ _ && JS.ge _ _) eqn:Hw; [by apply Hwin in Hw|].
    split; [done|]. simpl.
    apply Forall_fmap, Forall_forall. intros e0 _. apply tap_reset_clean.
  - intros Hn. by destruct Hcases as [(Hc & _)|[_ Hn']].
  - apply tap_move_resets.
  - apply tap_move_keeps.
  - apply tap_start_stamps.
  - intros Hl. unfold Tap.start. by rewrite bool_decide_eq_false_2.
  - intros Hl Hclock e' H2.
    assert (Hl' : length e' = length e).
    { apply Forall2_length in H2. rewrite <- H2.
      by apply tap_start_stamps. }
    unfold Tap.start in H2. rewrite bool_decide_eq_true_2 in H2 by done.
    destruct (tap_stamps_then_end this clock e e' Hclock H2) as [Hall Hst].
    split; [split; [congruence|done]|].
    unfold tap_interval. by rewrite Hst.
Qed.

Lemma MAX_VALUE_large : 1024 <= MAX_VALUE.
Proof.
  unfold MAX_VALUE.
  assert (H52 : 1 <= 2 ^ 52) by (apply pow_R1_Rle; lra).
  assert (Hinv : / 2 ^ 52 <= 1).
  { rewrite <- Rinv_1. apply Rinv_le_contravar; lra. }
  assert (H10 : (2 ^ 10 <= 2 ^ 1023)) by (apply Rle_pow; [lra|lia]).
  assert (E10 : 2 ^ 10 = 1024) by (simpl; lra).
  nra.
Qed.

Lemma tap_single_interval : tap_interval Taps.one 250 [Taps.lifted] = 150.
Proof.
  unfold tap_interval; simpl. unfold tap_stamp, Input.getGestureProgress; simpl.
  rewrite lookup_singleton_eq; simpl.
  rewrite Rmin_left by (pose proof MAX_VALUE_large; lra). lra.
Qed.

Lemma tap_end_emits_iff_witness :
  (Tap.end_ Taps.one 250 [Taps.lifted]).1
    = Some (tap_interval Taps.one 250 [Taps.lifted]) /\
  tap_interval Taps.one 250 [Taps.lifted] = 150.
Proof.
  split; [|exact tap_single_interval].
  apply (proj1 (tap_end_emits_iff Taps.one (fun _ => 100) 250 [Taps.lifted])).
  split; [|split; [|reflexivity]].
  - split; [reflexivity|]. constructor; [|constructor].
    split; [reflexivity|]. exists 100. split; [reflexivity|lra].
  - rewrite tap_single_interval. unfold tap_in_window; simpl.
    unfold Tap.DEFAULT_MIN_DELAY_MS, Tap.DEFAULT_MAX_DELAY_MS. lra.
Defined.

(** ** Angles *)

Lemma atan2_range (y x : R) : - PI < JS.atan2 y x <= PI.
Proof.
  pose proof PI_RGT_0 as Hpi.
  pose proof (atan_bound (y / x)) as Hb.
  unfold JS.atan2, JS.lt, JS.le.
  repeat case_bool_decide; try lra.
  - (* x < 0, 0 <= y: the quotient is not positive *)
    assert (Hq : y / x <= 0).
    { unfold Rdiv. assert (/ x < 0) by (by apply Rinv_lt_0_compat). nra. }
    assert (Ha : atan (y / x) <= 0).
    { rewrite <- atan_0. destruct Hq as [Hq|Hq]; [left; by apply atan_increasing|].
      rewrite Hq. lra. }
    lra.
  - (* x < 0, y < 0: the quotient is positive *)
    assert (Hq : 0 < y / x).
    { unfold Rdiv. assert (/ x < 0) by (by apply Rinv_lt_0_compat). nra. }
    assert (Ha : 0 < atan (y / x)) by (rewrite <- atan_0; by apply atan_increasing).
    lra.
Qed.

Lemma degrees_range (y x : R) :
  -180 < JS.atan2 y x * (util.HALF_CIRCLE_DEGREES / PI) <= 180.
Proof.
  pose proof PI_RGT_0 as Hpi. pose proof (atan2_range y x) as Ha.
  unfold util.HALF_CIRCLE_DEGREES.
  set (a := JS.atan2 y x) in *.
  assert (Hq : a * (180 / PI) = 180 * (a / PI)) by (field; lra).
  rewrite Hq.
  assert (Hq1 : -1 < a / PI <= 1).
  { split.
    - apply Rmult_lt_reg_r with PI; [done|]. unfold Rdiv.
      rewrite Rmult_assoc, Rinv_l by lra. lra.
    - apply Rmult_le_reg_r with PI; [done|]. unfold Rdiv.
      rewrite Rmult_assoc, Rinv_l by lra. lra. }
  lra.
Qed.

Lemma getAngle_range (e t0 i u : R) : 0 < util.getAngle e t0 i u <= 360.
Proof.
  pose proof (degrees_range (u - t0) (i - e)) as Hd.
  unfold util.getAngle, util.CIRCLE_DEGREES, JS.lt.
  case_bool_decide; lra.
Qed.

Lemma getAngle_right (e t0 i : R) : e < i -> util.getAngle e t0 i t0 = 360.
Proof.
  intros Hx. unfold util.getAngle, JS.atan2, util.CIRCLE_DEGREES.
  unfold JS.lt, JS.le.
  rewrite (bool_decide_eq_true_2 (0 < i - e)) by lra. cbv iota.
  replace ((t0 - t0) / (i - e)) with 0 by (field; lra).
  rewrite atan_0, Rmult_0_l.
  rewrite bool_decide_eq_false_2 by lra. lra.
Qed.

Lemma getAngle_up (e t0 u : R) : u < t0 -> util.getAngle e t0 e u = 90.
Proof.
  pose proof PI_RGT_0 as Hpi.
  intros Hy. unfold util.getAngle, JS.atan2, util.CIRCLE_DEGREES,
               util.HALF_CIRCLE_DEGREES, JS.lt, JS.le.
  rewrite (bool_decide_eq_false_2 (0 < e - e)) by lra.
  rewrite (bool_decide_eq_false_2 (e - e < 0)) by lra.
  rewrite (bool_decide_eq_false_2 (0 < u - t0)) by lra.
  rewrite (bool_decide_eq_true_2 (u - t0 < 0)) by lra. cbv iota.
  replace (- PI / 2 * (180 / PI)) with (-90) by (field; lra).
  rewrite bool_decide_eq_true_2 by lra. lra.
Qed.

Lemma getAngle_left (e t0 i : R) : i < e -> util.getAngle e t0 i t0 = 180.
Proof.
  pose proof PI_RGT_0 as Hpi.
  intros Hx. unfold util.getAngle, JS.atan2, util.CIRCLE_DEGREES,
               util.HALF_CIRCLE_DEGREES, JS.lt, JS.le.
  rewrite (bool_decide_eq_false_2 (0 < i - e)) by lra.
  rewrite (bool_decide_eq_true_2 (i - e < 0)) by lra.
  rewrite (bool_decide_eq_true_2 (0 <= t0 - t0)) by lra. cbv iota.
  replace ((t0 - t0) / (i - e)) with 0 by (field; lra).
  rewrite atan_0.
  replace ((0 + PI) * (180 / PI)) with 180 by (field; lra).
  rewrite bool_decide_eq_false_2 by lra. lra.
Qed.

Lemma getAngle_down (e t0 u : R) : t0 < u -> util.getAngle e t0 e u = 270.
Proof.
  pose proof PI_RGT_0 as Hpi.
  intros Hy. unfold util.getAngle, JS.atan2, util.CIRCLE_DEGREES,
               util.HALF_CIRCLE_DEGREES, JS.lt, JS.le.
  rewrite (bool_decide_eq_false_2 (0 < e - e)) by lra.
  rewrite (bool_decide_eq_false_2 (e - e < 0)) by lra.
  rewrite (bool_decide_eq_true_2 (0 < u - t0)) by lra. cbv iota.
  replace (PI / 2 * (180 / PI)) with 90 by (field; lra).
  rewrite bool_decide_eq_false_2 by lra. lra.
Qed.

(** The rightward direction is reported as 360, outside [0, 360). *)
Lemma getAngle_rightward_is_360 :
  util.getAngle 0 0 5 0 = 360 /\
  util.getAngle 0 0 5 0 <> 0 /\
  ~ (0 <= util.getAngle 0 0 5 0 < 360).
Proof.
  assert (H : util.getAngle 0 0 5 0 = 360) by (apply getAngle_right; lra).
  rewrite H. repeat split; lra.
Qed.

(** [Point2D.angleTo] is [atan2 (dy, dx)] itself, in radians (on
    (-PI, PI] over exact arithmetic); for an upward displacement it is
    negative. *)
Lemma angleTo_radians (p q : Point2D.t) :
  Point2D.angleTo p q = JS.atan2 (Point2D.y q - Point2D.y p) (Point2D.x q - Point2D.x p) /\
  - PI < Point2D.angleTo p q <= PI.
Proof. split; [reflexivity|apply atan2_range]. Qed.

Lemma angleTo_upward_negative :
  Point2D.angleTo (Point2D.new 0 0) (Point2D.new 0 (-5)) = - PI / 2.
Proof.
  unfold Point2D.angleTo, JS.atan2, JS.lt, JS.le; simpl.
  rewrite (bool_decide_eq_false_2 (0 < 0 - 0)) by lra.
  rewrite (bool_decide_eq_false_2 (0 - 0 < 0)) by lra.
  rewrite (bool_decide_eq_false_2 (0 < -5 - 0)) by lra.
  by rewrite (bool_decide_eq_true_2 (-5 - 0 < 0)) by lra.
Qed.

(** On doubles the range of [getAngle] is closed at 0: for degrees [o]
    that are negative and small against 360 the sum [360 + o] rounds to
    360, and the result is 0.  A positive zero or a negative zero for [o]
    gives 360. *)
Example getAngle_binary64_rounds_to_zero :
  (-0x1p-46 <? 0)%float = true /\
  util.getAngle_binary64 (-0x1p-46)%float = 0%float /\
  util.getAngle_binary64 0%float = 360%float /\
  util.getAngle_binary64 (-0)%float = 360%float.
Proof. repeat split; vm_compute; reflexivity. Qed.

(** C5, as the code has it, over exact arithmetic (numbers as reals):
    [util.getAngle] returns degrees on (0, 360], namely [-o] or [360 - o]
    for the degrees [o] of [atan2 (dy, dx)], whichever lies in that
    interval; on screen coordinates a rightward displacement gives 360, an
    upward one 90, a leftward one 180 and a downward one 270.  (On doubles
    the lower end is reached by rounding, see
    [getAngle_binary64_rounds_to_zero]: the range is then [0, 360].) *)
Theorem getAngle_degrees (e t0 i u : R) :
  0 < util.getAngle e t0 i u <= 360 /\
  (let o := JS.atan2 (u - t0) (i - e) * (180 / PI) in
   -180 < o <= 180 /\
   util.getAngle e t0 i u = if JS.lt o 0 then - o else 360 - o) /\
  (u = t0 -> e < i -> util.getAngle e t0 i u = 360) /\
  (i = e -> u < t0 -> util.getAngle e t0 i u = 90) /\
  (u = t0 -> i < e -> util.getAngle e t0 i u = 180) /\
  (i = e -> t0 < u -> util.getAngle e t0 i u = 270).
Proof.
  split; [apply getAngle_range|]. split.
  - split; [apply degrees_range|].
    unfold util.getAngle, util.CIRCLE_DEGREES, util.HALF_CIRCLE_DEGREES.
    destruct (JS.lt _ 0); lra.
  - split; [intros -> H; by apply getAngle_right|].
    split; [intros -> H; by apply getAngle_up|].
    split; [intros -> H; by apply getAngle_left|].
    intros -> H; by apply getAngle_down.
Qed.

Lemma getAngle_degrees_witness :
  util.getAngle 0 0 5 0 = 360 /\ util.getAngle 0 0 0 (-5) = 90 /\
  util.getAngle 0 0 (-5) 0 = 180 /\ util.getAngle 0 0 0 5 = 270.
Proof.
  split; [|split; [|split]].
  - apply (getAngle_degrees 0 0 5 0); [reflexivity|lra].
  - apply (getAngle_degrees 0 0 0 (-5)); [reflexivity|lra].
  - apply (getAngle_degrees 0 0 (-5) 0); [reflexivity|lra].
  - apply (getAngle_degrees 0 0 0 5); [reflexivity|lra].
Defined.

(** ** Rotate *)

Lemma trunc_frac (q : R) :
  (q < 0 -> -1 < q - IZR (JS.trunc q) <= 0) /\
  (0 <= q -> 0 <= q - IZR (JS.trunc q) < 1).
Proof.
  unfold JS.trunc, JS.lt. split; intros Hq.
  - rewrite bool_decide_eq_true_2 by done.
    pose proof (Zfloor_bound (- q)) as Hb. rewrite opp_IZR. lra.
  - rewrite bool_decide_eq_false_2 by lra.
    pose proof (Zfloor_bound q) as Hb. lra.
Qed.

Lemma rem_range (a b : R) :
  0 < b ->
  (a < 0 -> - b < JS.rem a b <= 0) /\ (0 <= a -> 0 <= JS.rem a b < b).
Proof.
  intros Hb. unfold JS.rem.
  pose proof (trunc_frac (a / b)) as [Hneg Hpos].
  assert (Ha : a = b * (a / b)) by (field; lra).
  assert (Hinv : 0 < / b) by (by apply Rinv_0_lt_compat).
  assert (Hq1 : a < 0 -> a / b < 0) by (intros; unfold Rdiv; nra).
  assert (Hq2 : 0 <= a -> 0 <= a / b) by (intros; unfold Rdiv; nra).
  set (q := a / b) in *. set (z := IZR (JS.trunc q)) in *.
  clearbody z. clearbody q.
  split; intros Hsign.
  - specialize (Hneg (Hq1 Hsign)). rewrite Ha. nra.
  - specialize (Hpos (Hq2 Hsign)). rewrite Ha. nra.
Qed.

Lemma rem_small (a b : R) : - b < a < b -> JS.rem a b = a.
Proof.
  intros Hab. assert (Hb : 0 < b) by lra.
  assert (Hq : -1 < a / b < 1).
  { assert (0 < / b) by (by apply Rinv_0_lt_compat).
    split.
    - apply Rmult_lt_reg_r with b; [done|]. unfold Rdiv.
      rewrite Rmult_assoc, Rinv_l by lra. lra.
    - apply Rmult_lt_reg_r with b; [done|]. unfold Rdiv.
      rewrite Rmult_assoc, Rinv_l by lra. lra. }
  unfold JS.rem, JS.trunc, JS.lt.
  case_bool_decide.
  - rewrite (Zfloor_eq 0 (- (a / b))) by (simpl; lra). rewrite opp_IZR. lra.
  - rewrite (Zfloor_eq 0 (a / b)) by (simpl; lra). lra.
Qed.

(** Each angular distance lies in [-180, 180]. *)
Lemma getAngularDistance_range (e t0 : R) :
  -180 <= util.getAngularDistance e t0 <= 180.
Proof.
  unfold util.getAngularDistance, util.CIRCLE_DEGREES, util.HALF_CIRCLE_DEGREES.
  pose proof (rem_range (t0 - e) 360) as [Hneg Hpos]; [lra|].
  set (i := JS.rem (t0 - e) 360) in *.
  unfold JS.lt, JS.gt.
  destruct (Rlt_dec (t0 - e) 0) as [Hs|Hs].
  - specialize (Hneg Hs). unfold Rabs. destruct (Rcase_abs i); repeat case_bool_decide; lra.
  - assert (Hs' : 0 <= t0 - e) by lra. specialize (Hpos Hs').
    unfold Rabs. destruct (Rcase_abs i); repeat case_bool_decide; lra.
Qed.

(** Once the scratch object is initialised, a move adds the angular
    distance from the previous angle to the accumulated distance. *)
Lemma rotate_step_accumulates (c0 : RotateProgress) (s : R) :
  initialAngle c0 <> 0 ->
  Rotate.step (Some c0) s
  = {| initialAngle := initialAngle c0; previousAngle := s;
       distance := distance c0 + util.getAngularDistance (previousAngle c0) s;
       change := util.getAngularDistance (previousAngle c0) s |}.
Proof.
  intros Hi. unfold Rotate.step, JS.truthy, JS.eqb.
  by rewrite bool_decide_eq_false_2.
Qed.

Lemma getAngularDistance_360_90 : util.getAngularDistance 360 90 = 90.
Proof.
  unfold util.getAngularDistance, util.CIRCLE_DEGREES, util.HALF_CIRCLE_DEGREES.
  rewrite rem_small by lra.
  replace (90 - 360) with (-270) by lra.
  rewrite Rabs_left by lra. by num_decide; lra.
Qed.

Lemma getAngularDistance_90_180 : util.getAngularDistance 90 180 = -90.
Proof.
  unfold util.getAngularDistance, util.CIRCLE_DEGREES, util.HALF_CIRCLE_DEGREES.
  rewrite rem_small by lra.
  replace (180 - 90) with 90 by lra.
  rewrite Rabs_right by lra. by num_decide; lra.
Qed.

Ltac rotate_eval :=
  unfold Rotate.move; simpl;
  unfold Input.getGestureProgress, Input.setGestureProgress; simpl;
  replace (0 + 100 / 2) with 50 by lra.

(** C6, on the code: [getAngularDistance] negates the arc when it does not
    wrap and keeps its sign when it wraps.  A mouse turning about the
    centre (50, 50) from 3 o'clock to 12 o'clock to 9 o'clock is seen at
    the angles 360, 90 and 180: the first quarter turn counts +90, the
    second one, in the same direction, counts -90, and the accumulated
    [distanceFromOrigin] after the half turn is 0. *)
Theorem rotate_half_turn_accumulates_zero :
  Rotate.move Turn.one [Turn.at_ 60 50 None] Mouse.region
    = Ok (Some {| Rotate.angle := 360; Rotate.distanceFromOrigin := 0;
                  Rotate.distanceFromLast := 0 |},
          [Turn.at_ 60 50 (Some (Turn.scratch 360 360 0 0))]) /\
  Rotate.move Turn.one [Turn.at_ 50 40 (Some (Turn.scratch 360 360 0 0))] Mouse.region
    = Ok (Some {| Rotate.angle := 90; Rotate.distanceFromOrigin := 0 + 90;
                  Rotate.distanceFromLast := 90 |},
          [Turn.at_ 50 40 (Some (Turn.scratch 360 90 (0 + 90) 90))]) /\
  Rotate.move Turn.one [Turn.at_ 40 50 (Some (Turn.scratch 360 90 (0 + 90) 90))]
              Mouse.region
    = Ok (Some {| Rotate.angle := 180; Rotate.distanceFromOrigin := 0 + 90 + -90;
                  Rotate.distanceFromLast := -90 |},
          [Turn.at_ 40 50 (Some (Turn.scratch 360 180 (0 + 90 + -90) (-90)))]) /\
  0 + 90 + -90 = 0.
Proof.
  split; [|split; [|split; [|lra]]].
  - rotate_eval. rewrite getAngle_right by lra. reflexivity.
  - rotate_eval. rewrite lookup_singleton_eq; simpl.
    rewrite getAngle_up by lra.
    num_decide.
    rewrite getAngularDistance_360_90. unfold Turn.at_; simpl.
    rewrite insert_singleton_eq. reflexivity.
  - rotate_eval. rewrite lookup_singleton_eq; simpl.
    rewrite getAngle_left by lra.
    num_decide.
    rewrite getAngularDistance_90_180. unfold Turn.at_; simpl.
    rewrite insert_singleton_eq. reflexivity.
Qed.

(** Rotate reads positions and phases only: re-parameterizing the time
    stamps of the events changes neither the data of a move nor the scratch
    state it leaves. *)
Lemma numActiveInputs_retime (f : R -> R) (e : list Input.t) :
  Rotate.numActiveInputs (retime f <$> e) = Rotate.numActiveInputs e.
Proof.
  unfold Rotate.numActiveInputs.
  induction e as [|e0 e IH]; [done|].
  rewrite fmap_cons, !filter_cons. simpl.
  destruct (decide (ZingEvent.type (Input.current e0) <> Some PEnd)); simpl;
    by rewrite IH.
Qed.

Lemma getRightMostInput_retime (f : R -> R) (e : list Input.t) :
  util.getRightMostInput (fun e0 => ZingEvent.x (Input.initial e0)) (retime f <$> e)
  = util.getRightMostInput (fun e0 => ZingEvent.x (Input.initial e0)) e.
Proof.
  unfold util.getRightMostInput. generalize (@None nat, 0%nat).
  induction e as [|e0 e IH]; intros acc; [done|].
  rewrite fmap_cons. simpl. destruct acc as [t0 k]. apply IH.
Qed.

Lemma rotate_move_retime (f : R -> R) (this : Rotate.t) (e : list Input.t)
      (n : Element) :
  Rotate.move this (retime f <$> e) n
  = match Rotate.move this e n with
    | Ok (d, e') => Ok (d, retime f <$> e')
    | TypeError => TypeError
    end.
Proof.
  unfold Rotate.move. rewrite numActiveInputs_retime.
  case_bool_decide; [done|].
  assert (Hp : Rotate.pivot_and_input (Rotate.numActiveInputs e) (retime f <$> e) n
               = Rotate.pivot_and_input (Rotate.numActiveInputs e) e n).
  { unfold Rotate.pivot_and_input. case_bool_decide; [done|].
    rewrite !list_lookup_fmap, getRightMostInput_retime.
    destruct (e !! 0%nat) as [a|]; [|done].
    destruct (e !! 1%nat) as [b|]; done. }
  rewrite Hp.
  destruct (Rotate.pivot_and_input _ e n) as [[i k]|]; [|done].
  rewrite list_lookup_fmap.
  destruct (e !! k) as [o|]; [|done]. simpl.
  by rewrite list_fmap_insert.
Qed.

(** * Further properties *)

(** ** [util] *)

(** X1: [getAngularDistance] lies in [-180, 180], is 0 between equal
    angles, and between two angles of (0, 360] its absolute value is the
    length of the shorter of the two arcs between them. *)
Theorem angular_distance_shorter_arc (e t0 : R) :
  -180 <= util.getAngularDistance e t0 <= 180 /\
  util.getAngularDistance e e = 0 /\
  (0 < e <= 360 -> 0 < t0 <= 360 ->
   Rabs (util.getAngularDistance e t0) = Rmin (Rabs (t0 - e)) (360 - Rabs (t0 - e))).
Proof.
  split; [apply getAngularDistance_range|]. split.
  - unfold util.getAngularDistance, util.CIRCLE_DEGREES, util.HALF_CIRCLE_DEGREES.
    rewrite rem_small by lra.
    replace (e - e) with 0 by lra. rewrite Rabs_R0.
    unfold JS.lt, JS.gt. repeat case_bool_decide; lra.
  - intros He Ht.
    unfold util.getAngularDistance, util.CIRCLE_DEGREES, util.HALF_CIRCLE_DEGREES.
    rewrite rem_small by lra.
    unfold JS.lt, JS.gt, Rmin.
    assert (Hd : - 360 < t0 - e < 360) by lra.
    revert Hd. generalize (t0 - e). intros d Hd.
    assert (Ha : 0 <= Rabs d < 360).
    { unfold Rabs. destruct (Rcase_abs d); lra. }
    destruct (Rle_dec (Rabs d) (360 - Rabs d)) as [Hle|Hgt];
      repeat case_bool_decide; try lra;
      rewrite ?Rmult_1_l; try (rewrite Rabs_Rabsolu; lra);
      try (replace (-1 * Rabs d) with (- Rabs d) by lra;
           rewrite Rabs_Ropp, Rabs_Rabsolu; lra);
      try (replace (-1 * (360 - Rabs d)) with (- (360 - Rabs d)) by lra;
           rewrite Rabs_Ropp);
      try (rewrite Rabs_right by lra; lra).
Qed.

Lemma angular_distance_shorter_arc_witness :
  Rabs (util.getAngularDistance 350 10) = Rmin (Rabs (10 - 350)) (360 - Rabs (10 - 350)).
Proof. apply (angular_distance_shorter_arc 350 10); lra. Defined.

(** X2: on a propagation path without repeated elements [getPathIndex] is
    the position of the element, and the length of the path for an element
    that is not on it; it never exceeds the length of the path. *)
Theorem getPathIndex_is_position (c : list Element) (t0 : Element) :
  NoDup (node <$> c) ->
  (forall i e, c !! i = Some e -> node e = node t0 -> util.getPathIndex c t0 = i) /\
  ((forall e, e ∈ c -> node e <> node t0) -> util.getPathIndex c t0 = length c) /\
  (util.getPathIndex c t0 <= length c)%nat.
Proof.
  intros Hnd. unfold util.getPathIndex.
  destruct (getPathIndex_fold c t0 (length c))
    as [_ [[Hn Hall]|(j & e' & Hj & He' & Hn & _)]].
  - split; [|split; [done|lia]].
    intros i e Hi He. exfalso. eapply Hall; [|done]. by eapply list_elem_of_lookup_2.
  - split; [|split].
    + intros i e Hi He. rewrite Hn.
      eapply NoDup_lookup; [exact Hnd| |].
      * rewrite list_lookup_fmap, Hj. simpl. by rewrite He'.
      * rewrite list_lookup_fmap, Hi. simpl. by rewrite He.
    + intros Hall. exfalso. eapply Hall; [|done]. by eapply list_elem_of_lookup_2.
    + rewrite Hn. apply lookup_lt_Some in Hj. lia.
Qed.

Lemma getPathIndex_is_position_witness :
  util.getPathIndex Nested.path Nested.outer = 1%nat.
Proof.
  apply (getPathIndex_is_position Nested.path Nested.outer) with Nested.outer;
    [|reflexivity|reflexivity].
  simpl. apply NoDup_cons. split; [|apply NoDup_singleton].
  intros H. apply list_elem_of_singleton in H. discriminate.
Defined.

(** ** [dispatcher] *)

(** X3: the candidates [dispatcher] returns come in the order in which
    their bindings are held (the registration order), each binding at most
    once: the bindings of the candidates are a sublist of the bindings. *)
Theorem dispatcher_keeps_registration_order {Data : Type}
        (invoke : phase -> Binding -> list Input.t
                  -> outcome (option Data * list Input.t))
        (e : list Binding) (r : phase) (inputs inputs' : list Input.t)
        (a : list (arbiter.Candidate Data)) :
  arbiter.dispatcher Data invoke e r inputs = Ok (a, inputs') ->
  sublist (arbiter.binding <$> a) e /\ (length a <= length e)%nat.
Proof.
  intros H. apply dispatcher_order in H. split; [done|].
  apply sublist_length in H. by rewrite length_fmap in H.
Qed.

Lemma dispatcher_keeps_registration_order_witness :
  sublist (arbiter.binding <$> [Nested.candidate Nested.outer 2; Nested.candidate Nested.inner 1])
          [Nested.bind Nested.outer; Nested.bind Nested.inner] /\
  (length [Nested.candidate Nested.outer 2; Nested.candidate Nested.inner 1]
   <= length [Nested.bind Nested.outer; Nested.bind Nested.inner])%nat.
Proof.
  apply (dispatcher_keeps_registration_order Nested.hook
           [Nested.bind Nested.outer; Nested.bind Nested.inner] PMove [] []).
  reflexivity.
Defined.

(** ** [Rotate] *)

Lemma rotate_first_move :
  Rotate.move Turn.one [Turn.at_ 60 50 None] Mouse.region
  = Ok (Some {| Rotate.angle := 360; Rotate.distanceFromOrigin := 0;
                Rotate.distanceFromLast := 0 |},
        [Turn.at_ 60 50 (Some (Turn.scratch 360 360 0 0))]).
Proof. rotate_eval. rewrite getAngle_right by lra. reflexivity. Qed.

(** X4: whenever [Rotate.move] emits, the angle lies in [0, 360], the
    distance from the last move lies in [-180, 180], and the inputs of the
    state are as many as before.  (Over exact arithmetic the angle is
    never 0; on doubles [getAngle] reaches 0 by rounding.) *)
Theorem rotate_move_data_ranges (this : Rotate.t) (e e' : list Input.t)
        (n : Element) (d : Rotate.data) :
  Rotate.move this e n = Ok (Some d, e') ->
  0 <= Rotate.angle d <= 360 /\
  -180 <= Rotate.distanceFromLast d <= 180 /\
  length e' = length e.
Proof.
  unfold Rotate.move. case_bool_decide; [done|].
  destruct (Rotate.pivot_and_input _ e n) as [[i k]|]; [|done].
  destruct (e !! k) as [o|]; [|done].
  intros [= <- <-]. simpl.
  split.
  { match goal with
    | |- _ <= util.getAngle ?a ?b ?c ?d <= _ =>
        pose proof (getAngle_range a b c d); lra
    end. }
  split; [|by rewrite length_insert].
  unfold Rotate.step.
  destruct (Progress.rotate _) as [c0|]; simpl; [|lra].
  destruct (JS.truthy _); simpl; [apply getAngularDistance_range|lra].
Qed.

Lemma rotate_move_data_ranges_witness :
  0 <= 360 <= 360 /\ -180 <= 0 <= 180 /\
  length [Turn.at_ 60 50 (Some (Turn.scratch 360 360 0 0))]
  = length [Turn.at_ 60 50 None].
Proof.
  apply (rotate_move_data_ranges Turn.one [Turn.at_ 60 50 None]
           [Turn.at_ 60 50 (Some (Turn.scratch 360 360 0 0))] Mouse.region
           {| Rotate.angle := 360; Rotate.distanceFromOrigin := 0;
              Rotate.distanceFromLast := 0 |}).
  exact rotate_first_move.
Defined.

(** X5: [Rotate.move] depends on the positions and phases of the inputs
    only: with the time stamps of all events re-parameterized by any
    function, it returns the same data and leaves the same scratch state. *)
Theorem rotate_move_ignores_time (f : R -> R) (this : Rotate.t) (e : list Input.t)
        (n : Element) :
  Rotate.move this (retime f <$> e) n
  = match Rotate.move this e n with
    | Ok (d, e') => Ok (d, retime f <$> e')
    | TypeError => TypeError
    end.
Proof. apply rotate_move_retime. Qed.

(** ** [Swipe.move] *)

(** X6: a [Swipe.move] with the configured number of inputs appends one
    sample, the clock reading with the current position, to the buffer of
    every input, removes none and leaves the events of the inputs alone;
    with another number of inputs it changes nothing. *)
Theorem swipe_move_appends_sample (this : Swipe.t) (now : nat -> number)
        (e : list Input.t) :
  (Swipe.numInputs this = length e ->
   forall k e0, e !! k = Some e0 ->
     exists e1, Swipe.move this now e !! k = Some e1 /\
       Fingers.samples this e1
       = Fingers.samples this e0
           ++ [ {| time := now k; sx := ZingEvent.x (Input.current e0);
                   sy := ZingEvent.y (Input.current e0) |} ] /\
       Input.initial e1 = Input.initial e0 /\
       Input.current e1 = Input.current e0 /\
       Input.previous e1 = Input.previous e0) /\
  (Swipe.numInputs this <> length e -> Swipe.move this now e = e).
Proof.
  unfold Swipe.move. split.
  - intros Hn k e0 Hk. rewrite bool_decide_eq_true_2 by done.
    exists (Swipe.move_one this (now k) e0).
    split; [by rewrite list_lookup_imap, Hk|].
    split; [apply swipe_move_one_samples|done].
  - intros Hn. by rewrite bool_decide_eq_false_2.
Qed.

Lemma swipe_move_appends_sample_witness :
  exists e1, Swipe.move (Swipe.new None None None None None) (fun _ => 7)
                        [Drag.pressed 3 4] !! 0%nat = Some e1 /\
    Fingers.samples (Swipe.new None None None None None) e1
    = Fingers.samples (Swipe.new None None None None None) (Drag.pressed 3 4)
        ++ [ {| time := 7; sx := ZingEvent.x (Input.current (Drag.pressed 3 4));
                sy := ZingEvent.y (Input.current (Drag.pressed 3 4)) |} ] /\
    Input.initial e1 = Input.initial (Drag.pressed 3 4) /\
    Input.current e1 = Input.current (Drag.pressed 3 4) /\
    Input.previous e1 = Input.previous (Drag.pressed 3 4).
Proof.
  apply (proj1 (swipe_move_appends_sample (Swipe.new None None None None None)
                  (fun _ => 7) [Drag.pressed 3 4])); reflexivity.
Defined.

(** ** The inputs of the bundled [State] *)

Lemma update_cases (e : Event) (inputs : list Input.t) (n : nat) (r : Element)
      (inputs' : list Input.t) :
  BundleState.update e inputs n r = Ok inputs' ->
  inputs' = [] \/
  (exists k o z, BundleState.findIndex inputs n = Some k /\ inputs !! k = Some o /\
                 util.normalizeEvent (ev_type e) <> Some PStart /\
                 util.isInside (ZingEvent.x (Input.current o))
                               (ZingEvent.y (Input.current o)) r = true /\
                 ZingEvent.new e n = Ok z /\
                 inputs' = <[k := Input.mk (Input.initial o) z (Input.current o)
                                           (Input.identifier o) (Input.progress o)]> inputs) \/
  (exists z, BundleState.findIndex inputs n = None /\
             util.normalizeEvent (ev_type e) = Some PStart /\
             ZingEvent.new e n = Ok z /\
             inputs' = inputs ++ [Input.mk z z z n ∅]).
Proof.
  unfold BundleState.update.
  destruct (BundleState.findIndex inputs n) as [k|] eqn:Hk; simpl.
  - destruct (inputs !! k) as [o|] eqn:Ho; simpl.
    + case_bool_decide as Hs; [intros [= <-]; by left|].
      destruct (util.isInside _ _ r) eqn:Hin; simpl; [|intros [= <-]; by left].
      unfold Input.update. destruct (ZingEvent.new e n) as [z|] eqn:Hz; [|done].
      intros [= <-]. right. left. by exists k, o, z.
    + case_bool_decide as Hs.
      * apply findIndex_Some in Hk as (o & Ho' & _). congruence.
      * intros [= <-]. by left.
  - case_bool_decide as Hs; [|intros [= <-]; by left].
    unfold Input.new. destruct (ZingEvent.new e n) as [z|] eqn:Hz; [|done].
    intros [= <-]. right. right. by exists z.
Qed.

Lemma updateInputs_fold_inv (P : list Input.t -> Prop) (e : Event) (r : Element) :
  (forall inputs n inputs', P inputs -> BundleState.update e inputs n r = Ok inputs' ->
                            P inputs') ->
  forall inputs inputs', P inputs ->
    BundleState.updateInputs e r inputs = Ok inputs' -> P inputs'.
Proof.
  intros Hstep inputs inputs' HP. unfold BundleState.updateInputs.
  destruct (ev_changedTouches e) as [touches|].
  - revert inputs HP. induction touches as [|i touches IH]; intros inputs HP; simpl.
    + by intros [= <-].
    + destruct (BundleState.update e inputs (touch_identifier i) r) as [inputs1|] eqn:Hu.
      * apply IH. by eapply Hstep.
      * intros Hf. exfalso. clear -Hf.
        induction touches as [|j touches IH]; simpl in Hf; [done|by apply IH].
  - destruct (ev_pointerId e); by apply Hstep.
Qed.

(** X7: the bundled [updateInputs] keeps the identifiers of the tracked
    inputs distinct: from inputs with pairwise different identifiers it
    yields inputs with pairwise different identifiers, whatever the
    event. *)
Theorem updateInputs_keeps_identifiers_distinct (e : Event) (r : Element)
        (inputs inputs' : list Input.t) :
  NoDup (Input.identifier <$> inputs) ->
  BundleState.updateInputs e r inputs = Ok inputs' ->
  NoDup (Input.identifier <$> inputs').
Proof.
  apply (updateInputs_fold_inv (fun l => NoDup (Input.identifier <$> l))).
  clear. intros inputs n inputs' Hnd Hu.
  apply update_cases in Hu as [->|[(k & o & z & Hk & Ho & _ & _ & _ & ->)
                                  |(z & Hk & _ & _ & ->)]].
  - constructor.
  - rewrite list_fmap_insert. simpl.
    rewrite list_insert_id; [done|]. by rewrite list_lookup_fmap, Ho.
  - rewrite fmap_app. simpl. apply NoDup_app. split; [done|].
    split; [|apply NoDup_singleton].
    intros x Hx Hx'. apply list_elem_of_singleton in Hx' as ->.
    apply list_elem_of_fmap in Hx as (o & Hid & Ho).
    eapply findIndex_None in Hk; [|exact Ho]. congruence.
Qed.

Lemma updateInputs_keeps_identifiers_distinct_witness :
  NoDup (Input.identifier <$> [Touches.A; Touches.B]).
Proof.
  apply (updateInputs_keeps_identifiers_distinct Touches.e3 Mouse.region
           [Input.mk (Touches.zing Touches.e1 5 5) (Touches.zing Touches.e1 5 5)
                     (Touches.zing Touches.e1 5 5) 0 ∅; Touches.B]).
  - simpl. apply NoDup_cons. split; [|apply NoDup_singleton].
    intros H. apply list_elem_of_singleton in H. discriminate.
  - unfold BundleState.updateInputs; simpl.
    unfold BundleState.update; simpl.
    rewrite isInside_region_5_5. reflexivity.
Defined.

Lemma zing_new_changed_touch (e : Event) (touches : list Touch) (i : Touch) :
  ev_changedTouches e = Some touches -> i ∈ touches ->
  exists z, ZingEvent.new e (touch_identifier i) = Ok z.
Proof.
  intros Ht Hi. unfold ZingEvent.new. rewrite Ht.
  destruct (List.find _ touches) as [c|] eqn:Hf; [by eexists|].
  exfalso. eapply List.find_none in Hf; [|apply list_elem_of_In; exact Hi].
  simpl in Hf. by rewrite bool_decide_eq_true_2 in Hf.
Qed.

Lemma update_ok (e : Event) (inputs : list Input.t) (n : nat) (r : Element) :
  (exists z, ZingEvent.new e n = Ok z) ->
  exists inputs', BundleState.update e inputs n r = Ok inputs'.
Proof.
  intros [z Hz]. unfold BundleState.update, Input.update, Input.new. rewrite Hz.
  destruct (BundleState.findIndex inputs n ≫= _) as [[k o]|];
    repeat case_bool_decide; try by eexists.
  all: destruct (negb _); by eexists.
Qed.

(** X8: the bundled [updateInputs] never throws: for every event (touch,
    pointer or mouse), region element and set of inputs it returns a set of
    inputs. *)
Theorem updateInputs_never_throws (e : Event) (r : Element) (inputs : list Input.t) :
  exists inputs', BundleState.updateInputs e r inputs = Ok inputs'.
Proof.
  unfold BundleState.updateInputs.
  destruct (ev_changedTouches e) as [touches|] eqn:Ht.
  - cut (forall l : list Touch, (forall i, i ∈ l -> i ∈ touches) ->
          forall inputs0, exists inputs',
            foldl (fun acc i =>
                     match acc with
                     | Ok inputs1 => BundleState.update e inputs1 (touch_identifier i) r
                     | TypeError => TypeError
                     end) (Ok inputs0) l = Ok inputs').
    { intros H. by apply H. }
    intros l. induction l as [|i l IH]; intros Hsub inputs0; simpl; [by eexists|].
    destruct (update_ok e inputs0 (touch_identifier i) r) as [inputs1 ->].
    + eapply zing_new_changed_touch; [done|]. apply Hsub. by left.
    + apply IH. intros j Hj. apply Hsub. by right.
  - assert (Hz : forall n, exists z, ZingEvent.new e n = Ok z).
    { intros n. unfold ZingEvent.new. rewrite Ht. by eexists. }
    destruct (ev_pointerId e); by apply update_ok.
Qed.

Lemma findIndex_insert (l : list Input.t) (k m : nat) (o o' : Input.t) :
  l !! k = Some o -> Input.identifier o' = Input.identifier o ->
  BundleState.findIndex (<[k := o']> l) m = BundleState.findIndex l m.
Proof.
  revert k. induction l as [|x l IH]; intros k Hk Hid; [done|].
  destruct k as [|k]; simpl in *.
  - inversion Hk; subst. by rewrite Hid.
  - by rewrite (IH k).
Qed.

(** X9: a Move or End event for a tracked input shifts that input forward
    when its current position is strictly inside the region element:
    [previous] becomes the old [current], [current] the new event, while
    [initial], the identifier and the scratch objects stay, the number of
    inputs stays and the input found for any other identifier is
    unchanged.  When the current position is not inside the element the
    input set is emptied instead. *)
Theorem update_shifts_tracked_input (e : Event) (inputs : list Input.t) (n : nat)
        (r : Element) (o : Input.t) (z : ZingEvent.t) :
  util.normalizeEvent (ev_type e) <> Some PStart ->
  BundleState.find inputs n = Some o ->
  ZingEvent.new e n = Ok z ->
  (util.isInside (ZingEvent.x (Input.current o)) (ZingEvent.y (Input.current o)) r = true ->
   exists inputs',
     BundleState.update e inputs n r = Ok inputs' /\
     BundleState.find inputs' n
       = Some (Input.mk (Input.initial o) z (Input.current o)
                        (Input.identifier o) (Input.progress o)) /\
     length inputs' = length inputs /\
     forall m, m <> n -> BundleState.find inputs' m = BundleState.find inputs m) /\
  (util.isInside (ZingEvent.x (Input.current o)) (ZingEvent.y (Input.current o)) r = false ->
   BundleState.update e inputs n r = Ok []).
Proof.
  intros Hs Ho Hz. apply find_Some in Ho as (k & Hk & Ho).
  unfold BundleState.update. rewrite Hk; simpl. rewrite Ho; simpl.
  rewrite bool_decide_eq_false_2 by done. split; intros Hin; rewrite Hin; simpl; [|done].
  unfold Input.update. rewrite Hz.
  eexists. split; [reflexivity|].
  set (o' := Input.mk _ _ _ _ _).
  assert (Hlt : (k < length inputs)%nat) by (by eapply lookup_lt_Some).
  split; [|split; [by rewrite length_insert|]].
  - unfold BundleState.find. rewrite (findIndex_insert _ _ _ o) by done.
    rewrite Hk. simpl. by rewrite list_lookup_insert_eq.
  - intros m Hm. unfold BundleState.find. rewrite (findIndex_insert _ _ _ o) by done.
    destruct (BundleState.findIndex inputs m) as [j|] eqn:Hj; simpl; [|done].
    rewrite list_lookup_insert_ne; [done|].
    intros <-. apply findIndex_Some in Hj as (o1 & Ho1 & Hid1).
    apply findIndex_Some in Hk as (o2 & Ho2 & Hid2). congruence.
Qed.

Lemma update_shifts_tracked_input_witness :
  exists inputs',
    BundleState.update Touches.e3
      [Input.mk (Touches.zing Touches.e1 5 5) (Touches.zing Touches.e1 5 5)
                (Touches.zing Touches.e1 5 5) 0 ∅; Touches.B] 0 Mouse.region
      = Ok inputs' /\
    BundleState.find inputs' 0 = Some Touches.A /\
    length inputs' = 2%nat /\
    forall m, m <> 0%nat ->
      BundleState.find inputs' m
      = BundleState.find
          [Input.mk (Touches.zing Touches.e1 5 5) (Touches.zing Touches.e1 5 5)
                    (Touches.zing Touches.e1 5 5) 0 ∅; Touches.B] m.
Proof.
  apply (update_shifts_tracked_input Touches.e3
           [Input.mk (Touches.zing Touches.e1 5 5) (Touches.zing Touches.e1 5 5)
                     (Touches.zing Touches.e1 5 5) 0 ∅; Touches.B] 0 Mouse.region
           (Input.mk (Touches.zing Touches.e1 5 5) (Touches.zing Touches.e1 5 5)
                     (Touches.zing Touches.e1 5 5) 0 ∅)
           (Touches.zing Touches.e3 5 5));
    [discriminate | reflexivity | reflexivity | exact isInside_region_5_5].
Defined.

(** ** [arbiter] *)

Lemma filter_all_length {A} (P : A -> Prop) `{forall x, Decision (P x)} (l : list A) :
  length (filter P l) = length l \/ exists x, x ∈ l /\ ~ P x.
Proof.
  induction l as [|x l IH]; [by left|].
  destruct (decide (P x)) as [Hx|Hx].
  - rewrite filter_cons_True by done. simpl.
    destruct IH as [->|(y & Hy & HPy)]; [by left|].
    right. exists y. split; [by right|done].
  - right. exists x. split; [by left|done].
Qed.

(** X10: whatever the event, the region and the gesture hooks, when
    [arbiter] returns, the inputs it leaves are either none at all or
    include an input that has not ended: a batch whose inputs have all
    ended is never retained. *)
Theorem arbiter_purges_ended_batch {Data : Type}
        (invoke : phase -> Binding -> list Input.t
                  -> outcome (option Data * list Input.t))
        (e : Event) (t0 : arbiter.Region) (a : list (arbiter.Candidate Data))
        (n' : list Input.t) :
  arbiter.arbiter Data invoke e t0 = Ok (a, n') ->
  n' = [] \/ exists e0, e0 ∈ n' /\ Input.getCurrentEventType e0 <> Some PEnd.
Proof.
  assert (Hpurge : forall n2 : list Input.t,
    let p := if bool_decide
                  (length (filter (fun e0 => Input.getCurrentEventType e0 = Some PEnd) n2)
                   = length n2)
             then BundleState.resetInputs else n2 in
    p = [] \/ exists e0, e0 ∈ p /\ Input.getCurrentEventType e0 <> Some PEnd).
  { intros n2. simpl. case_bool_decide as Hall; [by left|].
    destruct (filter_all_length (fun e0 => Input.getCurrentEventType e0 = Some PEnd) n2)
      as [Hl|Hex]; [done|by right]. }
  unfold arbiter.arbiter.
  destruct (bool_decide (length (arbiter.inputs t0) <> 0%nat)
            || bool_decide (util.normalizeEvent (ev_type e) = Some PStart)) eqn:Hg.
  - destruct (match ev_buttons e with Some b => _ | None => false end).
    + intros [= _ <-]. by left.
    + destruct (BundleState.updateInputs _ _ _) as [n1|]; [|done].
      destruct (bool_decide (0 < _)%nat).
      * destruct (util.normalizeEvent (ev_type e)) as [r0|]; [|done].
        destruct (arbiter.dispatcher _ _ _ _ _) as [[a2 n2]|]; [|done].
        destruct (arbiter.forwarded _ _) as [l|]; [|done].
        destruct (forallb _ l); [|done].
        intros [= _ <-]. apply Hpurge.
      * intros [= _ <-]. apply Hpurge.
  - intros [= _ <-]. left.
    apply orb_false_iff in Hg as [Hg _]. apply bool_decide_eq_false in Hg.
    destruct (arbiter.inputs t0); [done|]. exfalso. by apply Hg.
Qed.

Lemma arbiter_purges_ended_batch_witness :
  ([] : list Input.t) = [] \/
  exists e0, e0 ∈ ([] : list Input.t) /\ Input.getCurrentEventType e0 <> Some PEnd.
Proof.
  apply (arbiter_purges_ended_batch Nested.hook (Mouse.event "mouseup" 5 5)
           {| arbiter.region_element := Mouse.region; arbiter.bindings := [];
              arbiter.inputs := [Drag.pressed 5 5] |} []).
  unfold arbiter.arbiter; simpl.
  unfold BundleState.updateInputs, BundleState.update; simpl.
  rewrite isInside_region_5_5. reflexivity.
Defined.

(** X11: every candidate [arbiter] forwards is one of the candidates the
    recognizers produced, and it is the only forwarded candidate of its
    gesture kind. *)
Theorem forwarded_are_candidates {Data : Type} (c : list Element)
        (a l : list (arbiter.Candidate Data)) (w : arbiter.Candidate Data) :
  arbiter.forwarded c a = Ok l ->
  w ∈ l ->
  w ∈ a /\
  filter (fun y => arbiter.kind y = arbiter.kind w) l = [w].
Proof.
  intros Hl Hw. unfold arbiter.forwarded in Hl.
  destruct (arbiter.winners c a) as [u|] eqn:Hu; [|done].
  injection Hl as <-.
  apply list_elem_of_fmap in Hw as ([k w'] & -> & Hkw). simpl.
  apply elem_of_map_to_list in Hkw.
  pose proof (winners_spec c a u k Hu) as Hspec. rewrite Hkw in Hspec.
  destruct Hspec as (Hk & l1 & l2 & -> & _). split.
  - apply elem_of_app. right. by left.
  - destruct (forwarded_of_kind c _ u k Hu) as [_ Hf].
    rewrite Hk, Hf. by rewrite Hkw.
Qed.

Lemma forwarded_are_candidates_witness :
  Nested.candidate Nested.inner 2 ∈ Nested.candidates /\
  filter (fun y => arbiter.kind y = arbiter.kind (Nested.candidate Nested.inner 2))
         [Nested.candidate Nested.inner 2]
  = [Nested.candidate Nested.inner 2].
Proof.
  apply (forwarded_are_candidates Nested.path Nested.candidates
           [Nested.candidate Nested.inner 2] (Nested.candidate Nested.inner 2)).
  - apply nested_forwards_inner.
  - left.
Defined.

(** ** Distances and points *)

Lemma distance_rounded_to_hundredths_nonneg (x0 x1 y0 y1 : R) :
  0 <= util.distanceBetweenTwoPoints x0 x1 y0 y1.
Proof.
  unfold util.distanceBetweenTwoPoints, JS.round.
  set (d := sqrt _). assert (Hd : 0 <= d) by apply sqrt_pos.
  assert (Hz : (0 <= Zfloor (100 * d + / 2))%Z) by (apply Zfloor_lub; simpl; lra).
  apply IZR_le in Hz. lra.
Qed.

(** X12: [distanceBetweenTwoPoints] is never negative, is a whole number
    of hundredths, differs from the Euclidean distance of the two points by
    at most 0.005, and is the same in both directions. *)
Theorem distance_rounded_to_hundredths (x0 x1 y0 y1 : R) :
  let d := sqrt ((x1 - x0) * (x1 - x0) + (y1 - y0) * (y1 - y0)) in
  0 <= util.distanceBetweenTwoPoints x0 x1 y0 y1 /\
  (exists z : Z, util.distanceBetweenTwoPoints x0 x1 y0 y1 = IZR z / 100) /\
  Rabs (util.distanceBetweenTwoPoints x0 x1 y0 y1 - d) <= 5 / 1000 /\
  util.distanceBetweenTwoPoints x0 x1 y0 y1 = util.distanceBetweenTwoPoints x1 x0 y1 y0.
Proof.
  intros d. unfold util.distanceBetweenTwoPoints, JS.round. fold d.
  assert (Hd : 0 <= d) by apply sqrt_pos.
  pose proof (Zfloor_bound (100 * d + / 2)) as Hb.
  assert (Hz : (0 <= Zfloor (100 * d + / 2))%Z) by (apply Zfloor_lub; simpl; lra).
  apply IZR_le in Hz.
  split; [lra|]. split; [by eexists|]. split.
  - apply Rabs_le. lra.
  - replace ((x0 - x1) * (x0 - x1) + (y0 - y1) * (y0 - y1))
      with ((x1 - x0) * (x1 - x0) + (y1 - y0) * (y1 - y0)) by ring.
    done.
Qed.

Lemma sqrt_quarter (x : R) : 0 <= x -> 2 * sqrt (x / 4) = sqrt x.
Proof.
  intros Hx. replace x with (2 * 2 * (x / 4)) at 2 by field.
  rewrite sqrt_mult by lra. by rewrite sqrt_square by lra.
Qed.

(** X13: over exact arithmetic (numbers as reals, no rounding),
    [Point2D.distanceTo] is symmetric, never negative, and 0 exactly
    between equal points; the point [midpointTo] returns is the same in
    both directions and lies at half the distance from either point. *)
Theorem point_distance_and_midpoint (p q : Point2D.t) :
  Point2D.distanceTo p q = Point2D.distanceTo q p /\
  0 <= Point2D.distanceTo p q /\
  (Point2D.distanceTo p q = 0 <-> p = q) /\
  Point2D.midpointTo p q = Point2D.midpointTo q p /\
  2 * Point2D.distanceTo p (Point2D.midpointTo p q) = Point2D.distanceTo p q /\
  2 * Point2D.distanceTo (Point2D.midpointTo p q) q = Point2D.distanceTo p q.
Proof.
  destruct p as [px py], q as [qx qy].
  unfold Point2D.distanceTo, Point2D.midpointTo, JS.hypot; simpl.
  set (s := (qx - px) * (qx - px) + (qy - py) * (qy - py)).
  assert (Hs : 0 <= s).
  { pose proof (Rle_0_sqr (qx - px)) as H1. pose proof (Rle_0_sqr (qy - py)) as H2.
    unfold Rsqr in *. unfold s. lra. }
  split; [f_equal; unfold s; ring|]. split; [apply sqrt_pos|].
  split; [split|split; [|split]].
  - intros H0. apply sqrt_eq_0 in H0; [|done].
    pose proof (Rle_0_sqr (qx - px)) as H1. pose proof (Rle_0_sqr (qy - py)) as H2.
    unfold Rsqr in *. unfold s in H0.
    assert (Hx : (qx - px) * (qx - px) = 0) by lra.
    assert (Hy : (qy - py) * (qy - py) = 0) by lra.
    apply Rmult_integral in Hx. apply Rmult_integral in Hy.
    f_equal; lra.
  - intros [= -> ->]. unfold s.
    replace ((qx - qx) * (qx - qx) + (qy - qy) * (qy - qy)) with 0 by ring.
    apply sqrt_0.
  - f_equal; lra.
  - rewrite <- (sqrt_quarter s) by done. do 2 f_equal. unfold s. field.
  - rewrite <- (sqrt_quarter s) by done. do 2 f_equal. unfold s. field.
Qed.

(** X14: over exact arithmetic (numbers as reals, no rounding),
    [Point2D.add] is commutative and associative, adding back what
    [subtract] took off gives the point again, the difference of a point
    with itself is the origin, and [clone] returns an equal point. *)
Theorem point_add_subtract_algebra (p q r : Point2D.t) :
  Point2D.add p q = Point2D.add q p /\
  Point2D.add (Point2D.add p q) r = Point2D.add p (Point2D.add q r) /\
  Point2D.add (Point2D.subtract p q) q = p /\
  Point2D.subtract p p = Point2D.new 0 0 /\
  Point2D.clone p = p.
Proof.
  destruct p as [px py], q as [qx qy], r as [rx ry].
  unfold Point2D.add, Point2D.subtract, Point2D.clone; simpl.
  repeat split; f_equal; lra.
Qed.

(** X15: the two containment tests differ on the border: a position the
    bundled [util.isInside] accepts (strictly inside the rectangle) is
    accepted by [Point2D.isInside], and the top left corner of a rectangle
    of non-negative size is inside for [Point2D.isInside] but not for
    [util.isInside]. *)
Theorem isInside_closed_and_open (x y : R) (el : Element) :
  (util.isInside x y el = true -> Point2D.isInside (Point2D.new x y) el = true) /\
  (0 <= width (rect el) -> 0 <= height (rect el) ->
   Point2D.isInside (Point2D.new (left (rect el)) (top (rect el))) el = true /\
   util.isInside (left (rect el)) (top (rect el)) el = false).
Proof.
  unfold util.isInside, Point2D.isInside, JS.gt, JS.lt, JS.ge, JS.le; simpl.
  split.
  - rewrite !andb_true_iff, !bool_decide_eq_true. lra.
  - intros Hw Hh. split.
    + rewrite !andb_true_iff, !bool_decide_eq_true. lra.
    + rewrite (bool_decide_eq_false_2 (left (rect el) < left (rect el))) by lra. done.
Qed.

Lemma isInside_closed_and_open_witness :
  Point2D.isInside (Point2D.new 5 5) Mouse.region = true /\
  Point2D.isInside (Point2D.new 0 0) Mouse.region = true /\
  util.isInside 0 0 Mouse.region = false.
Proof.
  split.
  - apply (isInside_closed_and_open 5 5 Mouse.region). exact isInside_region_5_5.
  - apply (isInside_closed_and_open 5 5 Mouse.region); simpl; lra.
Defined.

(** X16: [Point2D.angleTo] is an angle in radians within [-PI, PI], not
    in degrees: 0 toward the point itself and toward a point to the right
    at the same height, PI in absolute value toward a point to the left at
    the same height.  (Over exact arithmetic that last angle is PI itself
    and -PI is never returned; on doubles its sign is the sign of the zero
    the difference of the heights came out as.) *)
Theorem angleTo_within_half_turn (p q : Point2D.t) :
  - PI <= Point2D.angleTo p q <= PI /\
  Point2D.angleTo p p = 0 /\
  (Point2D.y q = Point2D.y p -> Point2D.x p < Point2D.x q -> Point2D.angleTo p q = 0) /\
  (Point2D.y q = Point2D.y p -> Point2D.x q < Point2D.x p ->
   Rabs (Point2D.angleTo p q) = PI).
Proof.
  pose proof PI_RGT_0 as Hpi.
  split; [pose proof (atan2_range (Point2D.y q - Point2D.y p)
                                  (Point2D.x q - Point2D.x p)) as Hr;
          unfold Point2D.angleTo; lra|].
  destruct p as [px py], q as [qx qy].
  unfold Point2D.angleTo, JS.atan2, JS.lt, JS.le; simpl.
  split; [|split].
  - rewrite (bool_decide_eq_false_2 (0 < px - px)) by lra.
    rewrite (bool_decide_eq_false_2 (px - px < 0)) by lra.
    rewrite (bool_decide_eq_false_2 (0 < py - py)) by lra.
    by rewrite (bool_decide_eq_false_2 (py - py < 0)) by lra.
  - intros -> Hx. rewrite (bool_decide_eq_true_2 (0 < qx - px)) by lra.
    replace ((py - py) / (qx - px)) with 0 by (field; lra). apply atan_0.
  - intros -> Hx. rewrite (bool_decide_eq_false_2 (0 < qx - px)) by lra.
    rewrite (bool_decide_eq_true_2 (qx - px < 0)) by lra.
    rewrite (bool_decide_eq_true_2 (0 <= py - py)) by lra.
    replace ((py - py) / (qx - px)) with 0 by (field; lra). rewrite atan_0.
    rewrite Rplus_0_l. apply Rabs_pos_eq. lra.
Qed.

Lemma angleTo_within_half_turn_witness :
  Point2D.angleTo (Point2D.new 0 0) (Point2D.new 5 0) = 0 /\
  Rabs (Point2D.angleTo (Point2D.new 0 0) (Point2D.new (-5) 0)) = PI.
Proof.
  split.
  - apply (angleTo_within_half_turn (Point2D.new 0 0) (Point2D.new 5 0));
      [reflexivity|simpl; lra].
  - apply (angleTo_within_half_turn (Point2D.new 0 0) (Point2D.new (-5) 0));
      [reflexivity|simpl; lra].
Defined.

(** ** The inputs of [State.js] *)

Section StateJs.

Context {ZE : Type} (newZingEvent : Event -> option nat -> ZE)
        (type : ZE -> option phase) (normalizeEvent : string -> option phase).

Implicit Types (inputs : list (option (State.Input ZE))).

Lemma getInputsInPhase_cons inputs (slot : option (State.Input ZE)) (p : phase) :
  State.getInputsInPhase ZE type (slot :: inputs) p
  = match slot with
    | Some i => if decide (State.phase_of ZE type i = Some p)
                then i :: State.getInputsInPhase ZE type inputs p
                else State.getInputsInPhase ZE type inputs p
    | None => State.getInputsInPhase ZE type inputs p
    end.
Proof.
  unfold State.getInputsInPhase. destruct slot as [i|]; simpl; [|done].
  rewrite filter_cons. by destruct (decide _).
Qed.

Lemma getInputsInPhase_length inputs (p : phase) :
  (length (State.getInputsInPhase ZE type inputs p) <= length inputs)%nat.
Proof.
  induction inputs as [|slot inputs IH]; [done|].
  rewrite getInputsInPhase_cons. destruct slot as [i|]; [destruct (decide _)|];
    simpl; lia.
Qed.

Lemma hasOnlyEndedInputs_Forall inputs :
  State.hasOnlyEndedInputs ZE type inputs = true <->
  Forall (fun slot => exists i, slot = Some i /\ State.phase_of ZE type i = Some PEnd)
         inputs.
Proof.
  unfold State.hasOnlyEndedInputs. rewrite bool_decide_eq_true.
  induction inputs as [|slot inputs IH]; [split; [constructor|done]|].
  rewrite getInputsInPhase_cons.
  pose proof (getInputsInPhase_length inputs PEnd) as Hle.
  destruct slot as [i|]; [destruct (decide _) as [Hp|Hp]|]; simpl.
  - split.
    + intros [= Hl]. constructor; [by exists i|by apply IH].
    + intros Hall. apply Forall_cons in Hall as [_ Hall]. f_equal. by apply IH.
  - split; [lia|]. intros Hall. apply Forall_cons in Hall as [(j & [= <-] & Hj) _]. done.
  - split; [lia|]. intros Hall. apply Forall_cons in Hall as [(j & Hj & _) _]. done.
Qed.

(** X17: [hasOnlyEndedInputs] holds exactly when every slot of the array
    holds an input in the end phase: it holds for the empty array, and a
    single hole (an identifier that was skipped, or an input cleared by
    [clearEndedInputs]) makes it false. *)
Theorem hasOnlyEndedInputs_iff inputs :
  (State.hasOnlyEndedInputs ZE type inputs = true <->
   Forall (fun slot => exists i, slot = Some i /\ State.phase_of ZE type i = Some PEnd)
          inputs) /\
  State.hasOnlyEndedInputs ZE type [] = true /\
  (forall j, inputs !! j = Some None -> State.hasOnlyEndedInputs ZE type inputs = false).
Proof.
  split; [apply hasOnlyEndedInputs_Forall|]. split; [done|].
  intros j Hj. apply not_true_is_false. intros H.
  apply hasOnlyEndedInputs_Forall in H.
  eapply Forall_lookup_1 in H as (i & Hi & _); [|exact Hj]. done.
Qed.

(** X18: [clearEndedInputs] keeps the length of the array, turns exactly
    the slots of ended inputs into holes and leaves every other slot as it
    is; afterwards no input is in the end phase, the inputs not in the end
    phase are the same as before, and clearing again changes nothing. *)
Theorem clearEndedInputs_spec inputs :
  length (State.clearEndedInputs ZE type inputs) = length inputs /\
  (forall j, array_get (State.clearEndedInputs ZE type inputs) j
             = match array_get inputs j with
               | Some i => if decide (State.phase_of ZE type i = Some PEnd)
                           then None else Some i
               | None => None
               end) /\
  State.getInputsInPhase ZE type (State.clearEndedInputs ZE type inputs) PEnd = [] /\
  State.getInputsNotInPhase ZE type (State.clearEndedInputs ZE type inputs) PEnd
  = State.getInputsNotInPhase ZE type inputs PEnd /\
  State.clearEndedInputs ZE type (State.clearEndedInputs ZE type inputs)
  = State.clearEndedInputs ZE type inputs.
Proof.
  unfold State.clearEndedInputs. split; [by rewrite length_fmap|]. split; [|split; [|split]].
  - intros j. unfold array_get. rewrite list_lookup_fmap.
    destruct (inputs !! j) as [[i|]|]; simpl; try done.
    case_bool_decide; by destruct (decide _).
  - induction inputs as [|slot inputs IH]; [done|].
    rewrite fmap_cons, getInputsInPhase_cons.
    destruct slot as [i|]; [|done].
    case_bool_decide as Hp; [done|]. by destruct (decide _).
  - unfold State.getInputsNotInPhase.
    induction inputs as [|slot inputs IH]; [done|].
    rewrite fmap_cons. destruct slot as [i|]; simpl; [|done].
    case_bool_decide as Hp; simpl.
    + rewrite filter_cons_False by (by intros H; apply H). apply IH.
    + rewrite !filter_cons. destruct (decide _); [f_equal|]; apply IH.
  - rewrite <- list_fmap_compose. apply list_fmap_ext.
    intros j [i|] _; simpl; [|done].
    case_bool_decide as Hp; [done|]. simpl. by rewrite bool_decide_eq_false_2.
Qed.

(** X19: a Move or End event for an identifier whose slot holds an input
    shifts that input forward: [previous] becomes the old [current] and
    [current] the wrapper of the new event, built without an identifier,
    while [initial], the identifier and the scratch objects stay; the
    length of the array and every other slot are unchanged. *)
Theorem updateInput_shifts_tracked_input (event : Event) (identifier : nat) inputs
        (i : State.Input ZE) :
  normalizeEvent (ev_type event) <> Some PStart ->
  array_get inputs identifier = Some i ->
  let inputs' := State.updateInput ZE newZingEvent normalizeEvent event identifier inputs in
  array_get inputs' identifier
    = Some (State.mkInput ZE (State.initial ZE i) (newZingEvent event None)
                          (State.current ZE i) (State.identifier ZE i)
                          (State.progress ZE i)) /\
  length inputs' = length inputs /\
  forall j, j <> identifier -> array_get inputs' j = array_get inputs j.
Proof.
  intros Hs Hi inputs'. unfold inputs', State.updateInput.
  rewrite bool_decide_eq_false_2 by done. rewrite Hi.
  split; [apply array_get_set_eq|]. split; [|intros j Hj; by apply array_get_set_ne].
  unfold array_set. unfold array_get in Hi.
  destruct (inputs !! identifier) as [slot|] eqn:Hl; [|done].
  apply lookup_lt_Some in Hl.
  rewrite bool_decide_eq_true_2 by done. apply length_insert.
Qed.

Lemma hasOnlyEndedInputs_Forall_hole inputs (j : nat) :
  inputs !! j = Some None -> State.hasOnlyEndedInputs ZE type inputs = false.
Proof.
  intros Hj. apply not_true_is_false. intros H.
  apply hasOnlyEndedInputs_Forall in H.
  eapply Forall_lookup_1 in H as (i & Hi & _); [|exact Hj]. done.
Qed.

End StateJs.

Lemma updateInput_shifts_tracked_input_witness :
  let inputs' := State.updateInput (Event * option nat) Mouse.wrap util.normalizeEvent
                                   Touches.e3 0 [Some Touches.A'; Some Touches.B'] in
  array_get inputs' 0
    = Some (State.mkInput _ (Mouse.wrap Touches.e1 (Some 0%nat)) (Mouse.wrap Touches.e3 None)
                          (Mouse.wrap Touches.e3 None) 0 ∅) /\
  length inputs' = 2%nat /\
  forall j, j <> 0%nat -> array_get inputs' j = array_get [Some Touches.A'; Some Touches.B'] j.
Proof.
  apply (updateInput_shifts_tracked_input Mouse.wrap util.normalizeEvent Touches.e3 0%nat
           [Some Touches.A'; Some Touches.B'] Touches.A');
    [discriminate|reflexivity].
Defined.

(** ** [Pinch] *)

(** X20: [Pinch.move] never throws.  When it emits, exactly two inputs are
    active, a distance was emitted or recorded before, the change is the
    distance minus that last distance and is at least the threshold in
    absolute value, the distance is not negative, and the distance becomes
    the last emitted one.  When it does not emit, the last emitted distance
    is kept. *)
Theorem pinch_move_emission (this : Pinch.t) (e : list Input.t) (last : option number) :
  exists res last',
    Pinch.move this e last = Ok (res, last') /\
    match res with
    | Some d =>
        BundleState.numActiveInputs e = 2%nat /\
        (exists l, last = Some l /\ Pinch.change d = Pinch.distance d - l) /\
        Pinch.threshold this <= Rabs (Pinch.change d) /\
        0 <= Pinch.distance d /\
        last' = Some (Pinch.distance d)
    | None => last' = last
    end.
Proof.
  unfold Pinch.move. case_bool_decide as Hn; [|by eexists _, _].
  assert (Hlen : (2 <= length e)%nat).
  { unfold BundleState.numActiveInputs, Pinch.DEFAULT_INPUTS in Hn.
    rewrite <- Hn. apply length_filter. }
  destruct e as [|e0 [|e1 e]]; simpl in Hlen; try lia. simpl.
  destruct last as [l|]; [|by eexists _, _].
  destruct (JS.ge _ _) eqn:Hge; [|by eexists _, _].
  eexists _, _. split; [reflexivity|]. simpl.
  split; [done|]. split; [by exists l|]. split.
  - unfold JS.ge in Hge. by apply bool_decide_eq_true in Hge.
  - split; [|done]. apply distance_rounded_to_hundredths_nonneg.
Qed.

Lemma spread_apart : Pinch.move (Pinch.new None) Spread.apart (Some 10)
  = Ok (Some {| Pinch.distance := 20; Pinch.center := ((0 + 20) / 2, (0 + 0) / 2);
                Pinch.change := 20 - 10 |}, Some 20).
Proof.
  unfold Pinch.move; simpl. unfold Pinch.spread; simpl.
  rewrite (distance_exact 0 20 0 0 20 2000) by lra.
  unfold Pinch.DEFAULT_MIN_THRESHOLD.
  replace (Rabs (20 - 10)) with 10 by (rewrite Rabs_right; lra).
  by num_decide.
Qed.

(** X21: with a positive threshold Pinch is debounced: a move repeated on
    the same inputs right after an emission emits nothing, and so does a
    move on the inputs as [start] has just recorded them. *)
Theorem pinch_move_debounced (this : Pinch.t) (e : list Input.t) (n : Element)
        (last : option number) :
  0 < Pinch.threshold this ->
  (forall d last', Pinch.move this e last = Ok (Some d, last') ->
                   Pinch.move this e last' = Ok (None, last')) /\
  (Pinch.isValid e n = true -> length e = 2%nat ->
   Pinch.move this e (Pinch.start this e n last)
   = Ok (None, Pinch.start this e n last)).
Proof.
  intros Hth.
  assert (Hsame : forall e0 e1 l, l = Pinch.spread e0 e1 ->
            JS.ge (Rabs (Pinch.spread e0 e1 - l)) (Pinch.threshold this) = false).
  { intros e0 e1 l ->. unfold JS.ge. apply bool_decide_eq_false_2.
    replace (Pinch.spread e0 e1 - Pinch.spread e0 e1) with 0 by lra.
    rewrite Rabs_R0. lra. }
  split.
  - intros d last'. unfold Pinch.move.
    case_bool_decide as Hn; [|done].
    destruct (e !! 0%nat) as [e0|]; [|done]. destruct (e !! 1%nat) as [e1|]; [|done].
    destruct last as [l|]; [|done].
    destruct (JS.ge _ _); [|done]. intros [= <- <-]. by rewrite Hsame.
  - intros Hv Hl. unfold Pinch.start. rewrite Hv. simpl.
    rewrite bool_decide_eq_true_2 by done.
    destruct e as [|e0 [|e1 [|e2 e]]]; try done. simpl.
    unfold Pinch.move. case_bool_decide; [|done]. simpl. by rewrite Hsame.
Qed.

Lemma pinch_move_debounced_witness :
  Pinch.move (Pinch.new None) Spread.apart (Some 20) = Ok (None, Some 20).
Proof.
  assert (Hth : 0 < Pinch.threshold (Pinch.new None)).
  { simpl. unfold Pinch.DEFAULT_MIN_THRESHOLD. num_decide. lra. }
  apply (proj1 (pinch_move_debounced (Pinch.new None) Spread.apart Mouse.region
                  (Some 10) Hth)
               {| Pinch.distance := 20; Pinch.center := ((0 + 20) / 2, (0 + 0) / 2);
                  Pinch.change := 20 - 10 |}).
  exact spread_apart.
Defined.

(** ** [Swipe.end] *)

Lemma array_set_past_end {A} (d : list (option A)) (n : nat) (v : A) :
  (length d <= n)%nat ->
  last (array_set d n v) = Some (Some v) /\ length (array_set d n v) = S n.
Proof.
  intros Hn. unfold array_set. rewrite bool_decide_eq_false_2 by lia.
  rewrite app_assoc, last_snoc. split; [done|].
  rewrite !length_app, length_replicate. simpl. lia.
Qed.

Lemma end_each_completed (this : Swipe.t) (now : nat -> number) (e : list Input.t) :
  forall n d a d' a' e',
    Swipe.end_each this now e n d a = (inr (d', a'), e') ->
    (length d <= n)%nat ->
    (d = [] /\ a = None \/ exists x, last d = Some (Some x) /\ a = Some (Swipe.velocity x)) ->
    (length d' <= n + length e)%nat /\
    (d' = [] /\ a' = None \/
     exists x, last d' = Some (Some x) /\ a' = Some (Swipe.velocity x)) /\
    Forall (fun e0 => ZingEvent.type (Input.current e0) = Some PEnd) e /\
    length e' = length e.
Proof.
  induction e as [|e0 e IH]; intros n d a d' a' e' H Hlen Hinv.
  - simpl in H. inversion H; subst. simpl. repeat split; [lia|done|constructor].
  - simpl in H. case_bool_decide as Hend; [done|].
    assert (Hcont : forall e0' d1 a1,
      (let '(res, rest') := Swipe.end_each this now e (S n) d1 a1 in (res, e0' :: rest'))
      = (inr (d', a'), e') ->
      (length d1 <= S n)%nat ->
      (d1 = [] /\ a1 = None \/
       exists x, last d1 = Some (Some x) /\ a1 = Some (Swipe.velocity x)) ->
      (length d' <= n + length (e0 :: e))%nat /\
      (d' = [] /\ a' = None \/
       exists x, last d' = Some (Some x) /\ a' = Some (Swipe.velocity x)) /\
      Forall (fun e0 => ZingEvent.type (Input.current e0) = Some PEnd) (e0 :: e) /\
      length e' = length (e0 :: e)).
    { intros e0' d1 a1 H1 Hl1 Hi1.
      destruct (Swipe.end_each this now e (S n) d1 a1) as [res rest'] eqn:Hrec.
      inversion H1; subst.
      destruct (IH _ _ _ _ _ _ Hrec Hl1 Hi1) as (Hl' & Hi' & Hall & Hle).
      simpl. repeat split; [lia|done|by constructor|by rewrite Hle]. }
    destruct (Progress.moves _) as [ms|]; [|apply (Hcont _ _ _ H); [lia|done]].
    case_bool_decide as H2; [|apply (Hcont _ _ _ H); [lia|done]].
    destruct (last ms) as [i|]; [|apply (Hcont _ _ _ H); [lia|done]].
    destruct (JS.gt _ _); [done|].
    destruct (match Swipe.lastDistinct (time i) (removelast ms) with
              | Some u => _ | None => _ end) as [u ms2].
    eapply Hcont; [exact H| |].
    + by rewrite (proj2 (array_set_past_end d n _ Hlen)).
    + right. eexists. split; [apply array_set_past_end; exact Hlen|done].
Qed.

Lemma end_each_early (this : Swipe.t) (now : nat -> number) (e : list Input.t) :
  forall n d a res e',
    Swipe.end_each this now e n d a = (inl res, e') ->
    res = Swipe.Undefined \/ res = Swipe.Null.
Proof.
  induction e as [|e0 e IH]; intros n d a res e' H; simpl in H; [done|].
  case_bool_decide as Hend; [inversion H; by left|].
  assert (Hcont : forall e0' d1 a1,
    (let '(res0, rest') := Swipe.end_each this now e (S n) d1 a1 in (res0, e0' :: rest'))
    = (inl res, e') -> res = Swipe.Undefined \/ res = Swipe.Null).
  { intros e0' d1 a1 H1.
    destruct (Swipe.end_each this now e (S n) d1 a1) as [res0 rest'] eqn:Hrec.
    inversion H1; subst. by eapply IH. }
  destruct (Progress.moves _) as [ms|]; [|by eapply Hcont].
  case_bool_decide as H2; [|by eapply Hcont].
  destruct (last ms) as [i|]; [|by eapply Hcont].
  destruct (JS.gt _ _); [inversion H; by right|].
  destruct (match Swipe.lastDistinct (time i) (removelast ms) with
            | Some u => _ | None => _ end) as [u ms2].
  by eapply Hcont.
Qed.

(** X22: whenever [Swipe.end] emits, the number of inputs is the
    configured one, every input has ended, the data holds at least one
    entry and at most one per input, its last entry is present and has a
    velocity of at least [escapeVelocity], and the inputs are as many as
    before. *)
Theorem swipe_end_emission (this : Swipe.t) (now : nat -> number)
        (e e' : list Input.t) (d : list (option Swipe.data)) :
  Swipe.end_ this now e = (Swipe.Data d, e') ->
  Swipe.numInputs this = length e /\
  Forall (fun e0 => ZingEvent.type (Input.current e0) = Some PEnd) e /\
  (0 < length d <= length e)%nat /\
  (exists x, last d = Some (Some x) /\ Swipe.escapeVelocity this <= Swipe.velocity x) /\
  length e' = length e.
Proof.
  unfold Swipe.end_. case_bool_decide as Hn; [|done].
  destruct (Swipe.end_each this now e 0 [] None) as [[res|[d1 a1]] e1] eqn:Hrec.
  - intros [= -> ->]. by apply end_each_early in Hrec as [?|?].
  - destruct (Swipe.escapes this d1 a1) eqn:Hesc; [|done].
    case_bool_decide as Hpos; [|done]. intros [= -> ->].
    destruct (end_each_completed _ _ _ _ _ _ _ _ _ Hrec) as (Hl & Hi & Hall & Hle);
      [simpl; lia|by left|].
    split; [done|]. split; [done|]. split; [simpl in Hl; lia|]. split; [|done].
    destruct Hi as [[-> _]|(x & Hx & ->)]; [simpl in Hpos; lia|].
    exists x. split; [done|].
    unfold Swipe.escapes in Hesc.
    destruct d as [|y d]; [done|]. simpl in Hesc.
    apply andb_true_iff in Hesc as [Hesc _]. apply negb_true_iff in Hesc.
    unfold JS.lt in Hesc. apply bool_decide_eq_false in Hesc. lra.
Qed.

Lemma swipe_slow_fast_emits :
  exists d e',
    Swipe.end_ Fingers.two (fun _ => 20) [Fingers.slow; Fingers.fast]
    = (Swipe.Data d, e').
Proof. eexists _, _. swipe_end_eval. reflexivity. Qed.

Lemma swipe_end_emission_witness :
  Swipe.numInputs Fingers.two = length [Fingers.slow; Fingers.fast] /\
  Forall (fun e0 => ZingEvent.type (Input.current e0) = Some PEnd)
         [Fingers.slow; Fingers.fast].
Proof.
  destruct swipe_slow_fast_emits as (d & e' & H).
  destruct (swipe_end_emission Fingers.two (fun _ => 20)
              [Fingers.slow; Fingers.fast] e' d H) as (H1 & H2 & _).
  by split.
Defined.

(** ** [util.getRightMostInput] *)

Lemma getRightMostInput_spec {A} (f : A -> number) (e : list A) :
  match util.getRightMostInput f e with
  | Some k =>
      exists x, e !! k = Some x /\ MIN_VALUE < f x /\
                forall j y, (k < j)%nat -> e !! j = Some y -> ~ MIN_VALUE < f y
  | None => forall x, x ∈ e -> ~ MIN_VALUE < f x
  end.
Proof.
  unfold util.getRightMostInput.
  set (step := fun '(t0, k) (e0 : A) =>
                 (if JS.gt (f e0) MIN_VALUE then Some k else t0, S k)).
  cut ((foldl step (None, 0%nat) e).2 = length e /\
       match (foldl step (None, 0%nat) e).1 with
       | Some k =>
           exists x, e !! k = Some x /\ MIN_VALUE < f x /\
                     forall j y, (k < j)%nat -> e !! j = Some y -> ~ MIN_VALUE < f y
       | None => forall x, x ∈ e -> ~ MIN_VALUE < f x
       end); [by intros [_ H]|].
  induction e as [|x e IH] using rev_ind.
  - simpl. split; [done|]. intros x Hx. by apply elem_of_nil in Hx.
  - rewrite foldl_app. simpl.
    destruct (foldl step (None, 0%nat) e) as [t0 k] eqn:Hf. simpl in IH.
    destruct IH as [-> IH]. simpl.
    split; [rewrite length_app; simpl; lia|].
    unfold JS.gt. case_bool_decide as Hx.
    + exists x. split; [by apply list_lookup_middle|]. split; [done|].
      intros j y Hj Hy. apply lookup_lt_Some in Hy.
      rewrite length_app in Hy. simpl in Hy. lia.
    + destruct t0 as [k|].
      * destruct IH as (x0 & Hk & Hx0 & Hafter).
        exists x0. split; [by apply lookup_app_l_Some|]. split; [done|].
        intros j y Hj Hy.
        destruct (decide (j < length e)%nat) as [Hlt|Hge].
        -- rewrite lookup_app_l in Hy by done. by eapply Hafter.
        -- apply lookup_lt_Some in Hy as Hlen.
           rewrite length_app in Hlen. simpl in Hlen.
           assert (j = length e) as -> by lia.
           rewrite list_lookup_middle in Hy by done. by inversion Hy; subst.
      * intros y Hy. apply elem_of_app in Hy as [Hy|Hy]; [by apply IH|].
        by apply list_elem_of_singleton in Hy as ->.
Qed.

(** X23: [getRightMostInput] returns the last input of the array whose
    initial x exceeds [Number.MIN_VALUE], whatever the positions of the
    inputs before it, and [null] exactly when no input has such an initial
    x. *)
Theorem getRightMostInput_is_last_positive {A} (f : A -> number) (e : list A) :
  match util.getRightMostInput f e with
  | Some k =>
      exists x, e !! k = Some x /\ MIN_VALUE < f x /\
                forall j y, (k < j)%nat -> e !! j = Some y -> ~ MIN_VALUE < f y
  | None => forall x, x ∈ e -> ~ MIN_VALUE < f x
  end.
Proof. apply getRightMostInput_spec. Qed.

(** ** [Pan] *)

Lemma pan_move_each_spec (this : Pan.t) (e : list Input.t) :
  forall t0 u u' e',
    Pan.move_each this e t0 u = Ok (u', e') ->
    (forall j, (t0 <= j)%nat -> array_get u j = None) ->
    length e' = length e /\
    (forall j, (j < t0)%nat -> array_get u' j = array_get u j) /\
    (forall j, (t0 + length e <= j)%nat -> array_get u' j = None) /\
    forall j e0, e !! j = Some e0 ->
      exists last,
        Progress.lastEmitted (Input.getGestureProgress e0 (Pan.key this)) = Some last /\
        (array_get u' (t0 + j) = Some (Pan.packData e0 last) /\
         e' !! j = Some (Input.setGestureProgress e0 (Pan.key this)
                           (Progress.set_lastEmitted
                              (ZingEvent.x (Input.current e0), ZingEvent.y (Input.current e0))
                              (Input.getGestureProgress e0 (Pan.key this))))
         \/ array_get u' (t0 + j) = None /\ e' !! j = Some e0).
Proof.
  induction e as [|e0 e IH]; intros t0 u u' e' H Hu; simpl in H.
  - inversion H; subst. repeat split; try done. intros j Hj. apply Hu. lia.
  - destruct (Progress.lastEmitted _) as [last|] eqn:Hlast; [|done].
    destruct (default false _ && _) eqn:Hemit.
    + destruct (Pan.move_each this e (S t0) _) as [[u2 e2]|] eqn:Hrec; [|done].
      inversion H; subst.
      destruct (IH _ _ _ _ Hrec) as (Hl & Hbefore & Hafter & Heach).
      { intros j Hj. rewrite array_get_set_ne by lia. apply Hu. lia. }
      split; [simpl; by rewrite Hl|]. split; [|split].
      * intros j Hj. rewrite Hbefore by lia. apply array_get_set_ne. lia.
      * intros j Hj. apply Hafter. simpl in Hj. lia.
      * intros [|j] e1 Hj; simpl in Hj.
        -- inversion Hj; subst. exists last. split; [done|]. left.
           rewrite Nat.add_0_r, Hbefore by lia. split; [apply array_get_set_eq|done].
        -- destruct (Heach j e1 Hj) as (l1 & Hl1 & Hcase). exists l1. split; [done|].
           by replace (t0 + S j)%nat with (S t0 + j)%nat by lia.
    + destruct (Pan.move_each this e (S t0) u) as [[u2 e2]|] eqn:Hrec; [|done].
      inversion H; subst.
      destruct (IH _ _ _ _ Hrec) as (Hl & Hbefore & Hafter & Heach).
      { intros j Hj. apply Hu. lia. }
      split; [simpl; by rewrite Hl|]. split; [|split].
      * intros j Hj. apply Hbefore. lia.
      * intros j Hj. apply Hafter. simpl in Hj. lia.
      * intros [|j] e1 Hj; simpl in Hj.
        -- inversion Hj; subst. exists last. split; [done|]. right.
           rewrite Nat.add_0_r, Hbefore by lia. split; [apply Hu; lia|done].
        -- destruct (Heach j e1 Hj) as (l1 & Hl1 & Hcase). exists l1. split; [done|].
           by replace (t0 + S j)%nat with (S t0 + j)%nat by lia.
Qed.

(** X24: when [Pan.move] returns its data, the inputs are as many as
    before and the data has no entry past them; for every input either the
    data holds its entry, whose change is the current position minus the
    last emitted one, and the last emitted position of the input becomes
    its current position while its events stay, or the data has a hole
    there and the input is unchanged. *)
Theorem pan_move_entries (this : Pan.t) (e e' : list Input.t)
        (u : list (option Pan.data)) :
  Pan.move this e = Ok (Some u, e') ->
  length e' = length e /\
  (forall j, (length e <= j)%nat -> array_get u j = None) /\
  forall j e0, e !! j = Some e0 ->
    exists last,
      Progress.lastEmitted (Input.getGestureProgress e0 (Pan.key this)) = Some last /\
      ((exists d e1,
          array_get u j = Some d /\ e' !! j = Some e1 /\
          Pan.change d = (ZingEvent.x (Input.current e0) - last.1,
                          ZingEvent.y (Input.current e0) - last.2) /\
          Progress.lastEmitted (Input.getGestureProgress e1 (Pan.key this))
          = Some (ZingEvent.x (Input.current e0), ZingEvent.y (Input.current e0)) /\
          Input.initial e1 = Input.initial e0 /\ Input.current e1 = Input.current e0 /\
          Input.previous e1 = Input.previous e0)
       \/ array_get u j = None /\ e' !! j = Some e0).
Proof.
  unfold Pan.move. case_bool_decide; [|done].
  destruct (Pan.move_each this e 0 []) as [[u1 e1]|] eqn:Hrec; [|done].
  intros [= <- <-].
  destruct (pan_move_each_spec _ _ _ _ _ _ Hrec) as (Hl & _ & Hafter & Heach).
  { intros j _. unfold array_get. by rewrite lookup_nil. }
  split; [done|]. split; [intros j Hj; by apply Hafter|].
  intros j e0 Hj. destruct (Heach j e0 Hj) as (last & Hlast & [[Hu He]|[Hu He]]).
  - exists last. split; [done|]. left. eexists _, _.
    split; [exact Hu|]. split; [exact He|]. split; [done|]. split; [|done].
    unfold Input.getGestureProgress, Input.setGestureProgress; simpl.
    by rewrite lookup_insert_eq.
  - exists last. split; [done|]. by right.
Qed.

Lemma drag_3_4_emits :
  Pan.move (Pan.new (Some {| Pan.opt_numInputs := None; Pan.opt_threshold := Some 2 |}))
           [Drag.moved 0 3 0 4]
  = Ok (Some [Some (Pan.packData (Drag.moved 0 3 0 4) (0, 3))], [Drag.emitted 0 3 0 4]).
Proof.
  unfold Pan.move, Pan.new; simpl.
  unfold Input.getGestureProgress, Pan.key; simpl.
  rewrite lookup_singleton_eq; simpl.
  rewrite (distance_exact 0 3 0 4 5 500) by lra.
  num_decide. simpl.
  unfold Input.setGestureProgress, Drag.emitted; simpl.
  rewrite insert_singleton_eq. reflexivity.
Qed.

Lemma pan_move_entries_witness :
  length [Drag.emitted 0 3 0 4] = length [Drag.moved 0 3 0 4] /\
  forall j : nat, Nat.le (length [Drag.moved 0 3 0 4]) j ->
            array_get [Some (Pan.packData (Drag.moved 0 3 0 4) (0, 3))] j = None.
Proof.
  destruct (pan_move_entries _ _ _ _ drag_3_4_emits) as (H1 & H2 & _).
  by split.
Defined.

(** X25: after [Pan.end] a move writes no entry: on inputs that are not
    active for the gesture and have a last emitted position, with the
    configured number of inputs, [Pan.move] returns an empty data and
    leaves the inputs as they are; so it does on the inputs [start] and
    then [end] have marked. *)
Theorem pan_move_after_end (this : Pan.t) (e : list Input.t) :
  Pan.numInputs this = length e ->
  (Forall (fun e0 =>
             is_Some (Progress.lastEmitted (Input.getGestureProgress e0 (Pan.key this))) /\
             Progress.active (Input.getGestureProgress e0 (Pan.key this)) <> Some true) e ->
   Pan.move this e = Ok (Some [], e)) /\
  Pan.move this (Pan.end_ this (Pan.start this e))
  = Ok (Some [], Pan.end_ this (Pan.start this e)).
Proof.
  intros Hn.
  assert (Hidle : forall l t0 u,
    Forall (fun e0 =>
              is_Some (Progress.lastEmitted (Input.getGestureProgress e0 (Pan.key this))) /\
              Progress.active (Input.getGestureProgress e0 (Pan.key this)) <> Some true) l ->
    Pan.move_each this l t0 u = Ok (u, l)).
  { induction l as [|e0 l IH]; intros t0 u Hall; simpl; [done|].
    apply Forall_cons in Hall as [[[last Hlast] Hact] Hall].
    rewrite Hlast.
    assert (Hf : default false (Progress.active
                   (Input.getGestureProgress e0 (Pan.key this))) = false).
    { destruct (Progress.active _) as [[|]|]; done. }
    rewrite Hf. simpl. by rewrite IH. }
  split.
  - intros Hall. unfold Pan.move. rewrite bool_decide_eq_true_2 by done.
    by rewrite Hidle.
  - unfold Pan.move. rewrite bool_decide_eq_true_2
      by (unfold Pan.end_, Pan.start; by rewrite !length_fmap).
    rewrite Hidle; [done|].
    unfold Pan.end_, Pan.start. apply Forall_fmap, Forall_fmap, Forall_forall.
    intros e0 _. simpl.
    unfold Input.getGestureProgress, Input.setGestureProgress; simpl.
    rewrite !lookup_insert_eq. simpl. split; [by eexists|done].
Qed.

Lemma pan_move_after_end_witness :
  Pan.move (Pan.new None) (Pan.end_ (Pan.new None) (Pan.start (Pan.new None) [Drag.pressed 0 0]))
  = Ok (Some [], Pan.end_ (Pan.new None) (Pan.start (Pan.new None) [Drag.pressed 0 0])).
Proof.
  apply (pan_move_after_end (Pan.new None) [Drag.pressed 0 0]). reflexivity.
Defined.

(** ** Where the gestures and the wrappers throw *)

(** X26: [Rotate.move] throws exactly when the number of active inputs is
    the configured one, is not 1, and either the state holds fewer than two
    inputs or no input has an initial x above [Number.MIN_VALUE] (every
    finger started at x = 0 or left of it). *)
Theorem rotate_move_throws_iff (this : Rotate.t) (e : list Input.t) (n : Element) :
  Rotate.move this e n = TypeError <->
  Rotate.numInputs this = Rotate.numActiveInputs e /\
  Rotate.numActiveInputs e <> 1%nat /\
  ((length e < 2)%nat \/
   forall x, x ∈ e -> ~ MIN_VALUE < ZingEvent.x (Input.initial x)).
Proof.
  unfold Rotate.move. case_bool_decide as Hn.
  { split; [done|]. by intros [Hn' _]. }
  unfold Rotate.pivot_and_input. case_bool_decide as H1.
  - assert (Hlen : (1 <= length e)%nat).
    { rewrite <- H1. unfold Rotate.numActiveInputs. apply length_filter. }
    destruct e as [|e0 e]; [simpl in Hlen; lia|]. simpl.
    split; [done|]. by intros (_ & H & _).
  - pose proof (getRightMostInput_spec
                  (fun e0 : Input.t => ZingEvent.x (Input.initial e0)) e) as Hspec.
    destruct (e !! 0%nat) as [e0|] eqn:H0; [destruct (e !! 1%nat) as [e1|] eqn:H1'|].
    + apply lookup_lt_Some in H1'.
      destruct (util.getRightMostInput _ e) as [k|].
      * destruct Hspec as (x & Hk & Hx & _). rewrite Hk.
        split; [done|]. intros (_ & _ & [Hl|Hall]); [lia|].
        exfalso. eapply Hall; [|exact Hx]. by eapply list_elem_of_lookup_2.
      * split; [|done]. intros _. split; [done|]. split; [done|]. by right.
    + apply lookup_ge_None in H1'. split; [|done].
      intros _. split; [done|]. split; [done|]. left. lia.
    + apply lookup_ge_None in H0. split; [|done].
      intros _. split; [done|]. split; [done|]. left. lia.
Qed.

Lemma pan_move_each_throws (this : Pan.t) (e : list Input.t) :
  forall t0 u,
    Pan.move_each this e t0 u = TypeError <->
    Exists (fun e0 => Progress.lastEmitted (Input.getGestureProgress e0 (Pan.key this))
                      = None) e.
Proof.
  induction e as [|e0 e IH]; intros t0 u; simpl.
  - split; [done|]. intros H. by apply Exists_nil in H.
  - rewrite Exists_cons.
    destruct (Progress.lastEmitted _) as [last|] eqn:Hlast.
    + destruct (default false _ && _).
      * destruct (Pan.move_each this e (S t0) _) as [[u2 e2]|] eqn:Hrec.
        -- split; [done|]. intros [?|Hex]; [done|].
           erewrite (proj2 (IH _ _) Hex) in Hrec. done.
        -- split; [|done]. intros _. right. by eapply IH.
      * destruct (Pan.move_each this e (S t0) u) as [[u2 e2]|] eqn:Hrec.
        -- split; [done|]. intros [?|Hex]; [done|].
           erewrite (proj2 (IH _ _) Hex) in Hrec. done.
        -- split; [|done]. intros _. right. by eapply IH.
    + split; [by left|done].
Qed.

(** X27: [Pan.move] throws exactly when the number of inputs is the
    configured one and some input has no last emitted position on its
    scratch object (the gesture never saw its start); on the inputs as
    [Pan.start] has marked them it never throws. *)
Theorem pan_move_throws_iff (this : Pan.t) (e : list Input.t) :
  (Pan.move this e = TypeError <->
   Pan.numInputs this = length e /\
   Exists (fun e0 => Progress.lastEmitted (Input.getGestureProgress e0 (Pan.key this))
                     = None) e) /\
  Pan.move this (Pan.start this e) <> TypeError.
Proof.
  assert (Hiff : forall l, Pan.move this l = TypeError <->
            Pan.numInputs this = length l /\
            Exists (fun e0 => Progress.lastEmitted
                                (Input.getGestureProgress e0 (Pan.key this)) = None) l).
  { intros l. unfold Pan.move. case_bool_decide as Hn.
    - pose proof (pan_move_each_throws this l 0 []) as Hthrow.
      destruct (Pan.move_each this l 0 []) as [[u1 e1]|].
      + split; [done|]. intros [_ Hex]. by apply Hthrow in Hex.
      + split; [|done]. intros _. split; [done|]. by apply Hthrow.
    - split; [done|]. by intros [Hn' _]. }
  split; [apply Hiff|].
  intros Hthrow. apply Hiff in Hthrow as [_ Hex].
  unfold Pan.start in Hex. apply Exists_fmap, Exists_exists in Hex as (e0 & _ & He0).
  simpl in He0. unfold Input.getGestureProgress, Input.setGestureProgress in He0.
  simpl in He0. by rewrite lookup_insert_eq in He0.
Qed.

(** X28: [new ZingEvent (event, id)] throws exactly for a touch event none
    of whose changed touches has the identifier; otherwise the wrapper
    keeps the event, carries the normalised type of the event, and its
    position is that of the first changed touch with the identifier, or of
    the event itself when it is not a touch event. *)
Theorem zingEvent_new_spec (e : Event) (n : nat) :
  (ZingEvent.new e n = TypeError <->
   exists touches, ev_changedTouches e = Some touches /\
                   forall c, c ∈ touches -> touch_identifier c <> n) /\
  (forall z, ZingEvent.new e n = Ok z ->
     ZingEvent.originalEvent z = e /\
     ZingEvent.type z = util.normalizeEvent (ev_type e) /\
     match ev_changedTouches e with
     | Some touches =>
         exists k c, touches !! k = Some c /\ touch_identifier c = n /\
                     (forall j c', (j < k)%nat -> touches !! j = Some c' ->
                                   touch_identifier c' <> n) /\
                     ZingEvent.x z = touch_clientX c /\ ZingEvent.y z = touch_clientY c
     | None => ZingEvent.x z = ev_clientX e /\ ZingEvent.y z = ev_clientY e
     end).
Proof.
  unfold ZingEvent.new.
  destruct (ev_changedTouches e) as [touches|].
  - assert (Hfind : forall l : list Touch,
      match List.find (fun c => bool_decide (touch_identifier c = n)) l with
      | Some c => exists k, l !! k = Some c /\ touch_identifier c = n /\
                    forall j c', (j < k)%nat -> l !! j = Some c' -> touch_identifier c' <> n
      | None => forall c, c ∈ l -> touch_identifier c <> n
      end).
    { induction l as [|c l IH]; simpl.
      - intros c Hc. by apply elem_of_nil in Hc.
      - case_bool_decide as Hc.
        + exists 0%nat. split; [done|]. split; [done|]. intros j c' Hj. lia.
        + destruct (List.find _ l) as [c0|].
          * destruct IH as (k & Hk & Hid & Hbefore). exists (S k).
            split; [done|]. split; [done|].
            intros [|j] c' Hj Hc'; simpl in Hc'; [by inversion Hc'; subst|].
            eapply Hbefore; [|exact Hc']. lia.
          * intros c' Hc'. apply elem_of_cons in Hc' as [->|Hc']; [done|]. by apply IH. }
    specialize (Hfind touches).
    destruct (List.find _ touches) as [c|].
    + destruct Hfind as (k & Hk & Hid & Hbefore). split.
      * split; [done|]. intros (t' & [= <-] & Hall).
        exfalso. eapply Hall; [|exact Hid]. by eapply list_elem_of_lookup_2.
      * intros z [= <-]. simpl. split; [done|]. split; [done|]. by exists k, c.
    + split; [|done]. split; [|done]. intros _. by exists touches.
  - split.
    + split; [done|]. by intros (t' & Ht & _).
    + by intros z [= <-].
Qed.

(** X29: a Start event for an identifier at or past the end of the array
    of [State.js] extends the array up to that identifier, leaving holes in
    between; when a hole is left the array no longer counts as holding
    ended inputs only. *)
Theorem updateInput_extends_with_holes {ZE : Type}
        (newZingEvent : Event -> option nat -> ZE) (type : ZE -> option phase)
        (normalizeEvent : string -> option phase)
        (event : Event) (identifier : nat) (inputs : list (option (State.Input ZE))) :
  normalizeEvent (ev_type event) = Some PStart ->
  (length inputs <= identifier)%nat ->
  let inputs' := State.updateInput ZE newZingEvent normalizeEvent event identifier inputs in
  length inputs' = S identifier /\
  (forall j, (length inputs <= j < identifier)%nat -> inputs' !! j = Some None) /\
  (forall j, (j < length inputs)%nat -> inputs' !! j = inputs !! j) /\
  ((length inputs < identifier)%nat ->
   State.hasOnlyEndedInputs ZE type inputs' = false).
Proof.
  intros Hs Hlen inputs'. unfold inputs', State.updateInput.
  rewrite bool_decide_eq_true_2 by done.
  unfold array_set. rewrite bool_decide_eq_false_2 by lia.
  assert (Hholes : forall j, (length inputs <= j < identifier)%nat ->
            (inputs ++ replicate (identifier - length inputs) None
                    ++ [Some (State.newInput ZE newZingEvent event identifier)]) !! j
            = Some None).
  { intros j Hj. rewrite lookup_app_r by lia.
    rewrite lookup_app_l by (rewrite length_replicate; lia).
    apply lookup_replicate_2. lia. }
  split; [|split; [done|split]].
  - rewrite !length_app, length_replicate. simpl. lia.
  - intros j Hj. by apply lookup_app_l.
  - intros Hlt. eapply hasOnlyEndedInputs_Forall_hole. apply (Hholes (length inputs)). lia.
Qed.

Lemma updateInput_extends_with_holes_witness :
  let inputs' := State.updateInput (Event * option nat) Mouse.wrap util.normalizeEvent
                                   Touches.e2 1 [] in
  length inputs' = 2%nat /\
  (forall j, (length ([] : list (option (State.Input (Event * option nat)))) <= j < 1)%nat ->
             inputs' !! j = Some None) /\
  (forall j, (j < length ([] : list (option (State.Input (Event * option nat)))))%nat ->
             inputs' !! j = ([] : list (option (State.Input (Event * option nat)))) !! j) /\
  ((length ([] : list (option (State.Input (Event * option nat)))) < 1)%nat ->
   State.hasOnlyEndedInputs _ Mouse.wrap_type inputs' = false).
Proof.
  apply (updateInput_extends_with_holes Mouse.wrap Mouse.wrap_type util.normalizeEvent
           Touches.e2 1%nat []); [reflexivity|simpl; lia].
Defined.
